(** * Symbol resolution of the loadable-module library
    (libs/libc/modlib/modlib_symbols.c)

    A shallow embedding of the functions of modlib_symbols.c and of the
    collaborators they call, followed by the properties of the specification
    that concern them.

    Conventions of the embedding.
    - C integers are [Z].  File offsets, lengths and array indices
      ([off_t], [size_t], [int]) are assumed to stay inside their types, so
      their arithmetic is plain; the value field of a symbol ([Elf_Addr],
      a [uintptr_t]) wraps around at [uintptr_bits].
    - A pointer is an address ([Z], [NULL = 0]).  Heap objects live in the
      [mem] component of the [world]; reading or freeing an address that
      holds no object, and indexing an array outside its bounds, is
      undefined behaviour in C and the outcome [Fault] here.
    - Functions that return an [int] status return it as a [Z] beside the
      structures they update (the structures the C code receives by
      pointer). *)

From Stdlib Require Import ZArith Ascii String Sorted.
From stdpp Require Import base numbers list gmap strings.

Local Open Scope Z_scope.

(** ** Constants *)

Module Errno.
Definition OK : Z := 0.
Definition ENOENT : Z := 2.
Definition ESRCH : Z := 3.
Definition ENOMEM : Z := 12.
Definition EINVAL : Z := 22.
Definition ENOSYS : Z := 38.
Definition ENODATA : Z := 61.
End Errno.
Import Errno.

(* Return values search for exported modules *)
Definition SYM_NOT_FOUND : Z := 0.
Definition SYM_FOUND : Z := 1.

(* Special section indices of the ELF format *)
Definition SHN_UNDEF : Z := 0.
Definition SHN_ABS : Z := 0xfff1.
Definition SHN_COMMON : Z := 0xfff2.

Definition NULL : Z := 0.

(** ** Data *)

(** The fields of the ELF structures that this file reads. *)
Record Elf_Sym := mkSym {
  st_name : Z;     (* offset of the name in the string table *)
  st_value : Z;
  st_size : Z;
  st_info : Z;
  st_other : Z;
  st_shndx : Z     (* section index, or SHN_UNDEF / SHN_ABS / SHN_COMMON *)
}.

Record Elf_Shdr := mkShdr {
  sh_type : Z;
  sh_addr : Z;
  sh_offset : Z;
  sh_size : Z;
  sh_link : Z
}.

Definition set_st_value (v : Z) (s : Elf_Sym) : Elf_Sym :=
  mkSym (st_name s) v (st_size s) (st_info s) (st_other s) (st_shndx s).

(** struct symtab_s: an exported name and its value. *)
Record symtab_s := mkSymtab {
  sym_name : Z;    (* pointer to a NUL-terminated string *)
  sym_value : Z
}.

(** struct module_s: [modaddr] is the address of the structure, by which the
    C code identifies a module; the other two are [modinfo.exports] and
    [modinfo.nexports]. *)
Record module_s := mkModule {
  modaddr : Z;
  exports : Z;
  nexports : Z
}.

Definition set_exports (p : Z) (m : module_s) : module_s :=
  mkModule (modaddr m) p (nexports m).
Definition set_nexports (n : Z) (m : module_s) : module_s :=
  mkModule (modaddr m) (exports m) n.

(** struct mod_loadinfo_s: the state of one load session. *)
Record mod_loadinfo_s := mkLoadinfo {
  filelen : Z;
  iobuffer : list ascii;
  buflen : Z;
  shdr : list Elf_Shdr;
  exported : Z
}.

Definition set_iobuffer (b : list ascii) (li : mod_loadinfo_s) :=
  mkLoadinfo (filelen li) b (buflen li) (shdr li) (exported li).
Definition set_buflen (n : Z) (li : mod_loadinfo_s) :=
  mkLoadinfo (filelen li) (iobuffer li) n (shdr li) (exported li).
Definition set_exported (p : Z) (li : mod_loadinfo_s) :=
  mkLoadinfo (filelen li) (iobuffer li) (buflen li) (shdr li) p.

(** What the build configuration and the target fix: the buffer increment,
    the size and layout of a symbol-table entry, the width of an address. *)
Record config := mkConfig {
  CONFIG_MODLIB_BUFFERINCR : Z;
  sizeof_Elf_Sym : Z;
  uintptr_bits : Z;
  decode_Elf_Sym : list ascii → Elf_Sym
}.

(** ** The world outside the arguments *)

Inductive object :=
  | OStr (s : list ascii)                 (* a string, without its NUL *)
  | OTab (t : list (option symtab_s)).    (* an array; None: not yet written *)

(** [image] is the module file; [mem] the allocated objects and [brk] the
    next address the allocator hands out; [g_mod_registry] the installed
    modules, newest at the head; [g_modlib_symtab] and [g_modlib_nsymbols]
    the export table of the base code; [edges] the dependencies recorded so
    far, oldest first.  The three scripts decide which calls of the fallible
    collaborators fail: each call consumes the head of its script, and an
    empty script lets every call through. *)
Record world := mkWorld {
  image : list ascii;
  mem : gmap Z object;
  brk : Z;
  g_mod_registry : list module_s;
  g_modlib_symtab : Z;
  g_modlib_nsymbols : Z;
  edges : list (Z * Z);
  read_script : list Z;      (* 0: the read goes through; e < 0: it fails with e *)
  alloc_script : list bool;  (* true: the allocation succeeds *)
  depend_script : list Z     (* 0: the edge is recorded; e < 0: failure e *)
}.

Definition set_mem (m : gmap Z object) (w : world) : world :=
  mkWorld (image w) m (brk w) (g_mod_registry w) (g_modlib_symtab w)
    (g_modlib_nsymbols w) (edges w) (read_script w) (alloc_script w)
    (depend_script w).
Definition set_brk (b : Z) (w : world) : world :=
  mkWorld (image w) (mem w) b (g_mod_registry w) (g_modlib_symtab w)
    (g_modlib_nsymbols w) (edges w) (read_script w) (alloc_script w)
    (depend_script w).
Definition set_edges (e : list (Z * Z)) (w : world) : world :=
  mkWorld (image w) (mem w) (brk w) (g_mod_registry w) (g_modlib_symtab w)
    (g_modlib_nsymbols w) e (read_script w) (alloc_script w)
    (depend_script w).
Definition set_read_script (s : list Z) (w : world) : world :=
  mkWorld (image w) (mem w) (brk w) (g_mod_registry w) (g_modlib_symtab w)
    (g_modlib_nsymbols w) (edges w) s (alloc_script w) (depend_script w).
Definition set_alloc_script (s : list bool) (w : world) : world :=
  mkWorld (image w) (mem w) (brk w) (g_mod_registry w) (g_modlib_symtab w)
    (g_modlib_nsymbols w) (edges w) (read_script w) s (depend_script w).
Definition set_depend_script (s : list Z) (w : world) : world :=
  mkWorld (image w) (mem w) (brk w) (g_mod_registry w) (g_modlib_symtab w)
    (g_modlib_nsymbols w) (edges w) (read_script w) (alloc_script w) s.

(** ** Computations *)

Inductive fault :=
  | OutOfBounds     (* an array indexed outside its bounds *)
  | BadPointer      (* an address that holds no object of the expected kind *)
  | BadFree         (* free of an address that holds no object *)
  | Unterminated.   (* a string read without finding its NUL *)

Inductive outcome (A : Type) :=
  | Done (a : A) (w : world)
  | Fault (f : fault)
  | Timeout.
Arguments Done {A} a w.
Arguments Fault {A} f.
Arguments Timeout {A}.

Definition M (A : Type) : Type := world → outcome A.

Definition ret {A} (a : A) : M A := fun w => Done a w.
Definition bind {A B} (m : M A) (k : A → M B) : M B :=
  fun w => match m w with
           | Done a w' => k a w'
           | Fault f => Fault f
           | Timeout => Timeout
           end.
Definition crash {A} (f : fault) : M A := fun _ => Fault f.
Definition get_world : M world := fun w => Done w w.

Notation "'let*' x ':=' m 'in' k" := (bind m (fun x => k))
  (at level 10, x pattern, m at level 100, k at level 200).

(** ** Small helpers on buffers *)

Definition NUL : ascii := Ascii.zero.

Definition is_nul (c : ascii) : bool := bool_decide (c = NUL).

(** The bytes before the first NUL, when there is one. *)
Fixpoint cstring (buf : list ascii) : option (list ascii) :=
  match buf with
  | [] => None
  | c :: rest => if is_nul c then Some []
                 else match cstring rest with
                      | Some s => Some (c :: s)
                      | None => None
                      end
  end.

(** memchr(&buf[pos], '\0', n) != NULL *)
Definition memchr_nul (buf : list ascii) (pos n : Z) : bool :=
  existsb is_nul (take (Z.to_nat n) (drop (Z.to_nat pos) buf)).

(** memcpy(&buf[pos], bytes, length bytes), inside the buffer. *)
Definition store_bytes (buf : list ascii) (pos : Z) (bytes : list ascii)
  : option (list ascii) :=
  if bool_decide (0 ≤ pos ∧ pos + Z.of_nat (length bytes) ≤ Z.of_nat (length buf))
  then Some (take (Z.to_nat pos) buf ++ bytes
             ++ drop (Z.to_nat pos + length bytes)%nat buf)
  else None.

Definition index {A} (l : list A) (i : Z) : option A :=
  if bool_decide (0 ≤ i) then l !! Z.to_nat i else None.

(** ** Collaborators

    The functions below are called by modlib_symbols.c and defined in other
    files of the library. *)

(** The bytes of a range of the image, when the range lies inside it. *)
Definition read_image (img : list ascii) (readsize offset : Z)
  : Z * list ascii :=
  if bool_decide (0 ≤ offset ∧ 0 ≤ readsize
                  ∧ offset + readsize ≤ Z.of_nat (length img))
  then (OK, take (Z.to_nat readsize) (drop (Z.to_nat offset) img))
  else (- ENODATA, []).

(** Modelled from the spec: modlib_read, the bounded read, "given a
    destination buffer, length, and file offset, fill the buffer from the
    module image or fail with an I/O error".  The bytes read are returned to
    the caller, which stores them at its destination; a range that is not
    inside the image cannot be filled and fails too. *)
Definition modlib_read (readsize offset : Z) : M (Z * list ascii) :=
  fun w =>
    let w' := set_read_script (tail (read_script w)) w in
    match read_script w with
    | e :: _ =>
        if bool_decide (e < 0) then Done (e, []) w'
        else Done (read_image (image w) readsize offset) w'
    | [] => Done (read_image (image w) readsize offset) w'
    end.

(** The content of memory that was allocated and not yet written. *)
Definition uninit_byte : ascii := "?"%char.

(** Modelled from the spec: one call of the allocator, which succeeds or
    fails as the script says. *)
Definition alloc_succeeds : M bool :=
  fun w => Done (match alloc_script w with b :: _ => b | [] => true end)
                (set_alloc_script (tail (alloc_script w)) w).

(** Modelled from the spec: modlib_reallocbuffer, the buffer grow, "given a
    session and a size increment, grow the read buffer's capacity,
    preserving existing contents, or fail with allocation failure". *)
Definition modlib_reallocbuffer (li : mod_loadinfo_s) (increment : Z)
  : M (Z * mod_loadinfo_s) :=
  let* ok := alloc_succeeds in
  if ok : bool
  then ret (OK, set_buflen (buflen li + increment)
                  (set_iobuffer (iobuffer li
                                 ++ replicate (Z.to_nat increment) uninit_byte) li))
  else ret (- ENOMEM, li).

(** Modelled from the spec: lib_malloc of a new object ("Allocator:
    allocate/free/duplicate-string"); NULL when the allocation fails. *)
Definition lib_malloc (o : object) : M Z :=
  let* ok := alloc_succeeds in
  if ok : bool
  then fun w => Done (brk w) (set_brk (brk w + 1) (set_mem (<[brk w := o]> (mem w)) w))
  else ret NULL.

(** Modelled from the spec: lib_free; free(NULL) does nothing. *)
Definition lib_free (p : Z) : M unit :=
  if bool_decide (p = NULL) then ret tt
  else fun w => match mem w !! p with
                | Some _ => Done tt (set_mem (delete p (mem w)) w)
                | None => Fault BadFree
                end.

(** Modelled from the spec: strdup of the string at the start of a buffer. *)
Definition strdup (buf : list ascii) : M Z :=
  match cstring buf with
  | Some s => lib_malloc (OStr s)
  | None => crash Unterminated
  end.

(** Reading memory: the string at [p], and entry [i] of the array at [p]. *)
Definition load_string (p : Z) : M (list ascii) :=
  fun w => match mem w !! p with
           | Some (OStr s) => Done s w
           | _ => Fault BadPointer
           end.

Definition load_entry (p i : Z) : M symtab_s :=
  fun w => match mem w !! p with
           | Some (OTab t) =>
               match index t i with
               | Some (Some e) => Done e w
               | Some None => Fault BadPointer
               | None => Fault OutOfBounds
               end
           | _ => Fault BadPointer
           end.

Definition store_entry (p i : Z) (e : symtab_s) : M unit :=
  fun w => match mem w !! p with
           | Some (OTab t) =>
               if bool_decide (0 ≤ i < Z.of_nat (length t))
               then Done tt (set_mem (<[p := OTab (<[Z.to_nat i := Some e]> t)]> (mem w)) w)
               else Fault OutOfBounds
           | _ => Fault BadPointer
           end.

(** Modelled from the spec: symtab_findbyname, the "name lookup in [an]
    export table": the first of the [nsyms] entries whose name is the string
    at [name], or None (a NULL result); a NULL table holds nothing. *)
Fixpoint findbyname_from (symtab : Z) (name : list ascii) (i : Z) (n : nat)
  : M (option symtab_s) :=
  match n with
  | O => ret None
  | S n' =>
      let* e := load_entry symtab i in
      let* s := load_string (sym_name e) in
      match cstring name with
      | None => crash Unterminated
      | Some key =>
          if bool_decide (s = key) then ret (Some e)
          else findbyname_from symtab name (i + 1) n'
      end
  end.

Definition symtab_findbyname (symtab : Z) (name : list ascii) (nsyms : Z)
  : M (option symtab_s) :=
  if bool_decide (symtab = NULL) then ret None
  else findbyname_from symtab name 0 (Z.to_nat nsyms).

(** Modelled from the spec: modlib_depend, the dependency registration,
    "given a dependent and a dependency module, record the edge or fail with
    allocation failure". *)
Definition modlib_depend (importer exporter : module_s) : M Z :=
  fun w =>
    let w' := set_depend_script (tail (depend_script w)) w in
    match depend_script w with
    | e :: _ =>
        if bool_decide (e < 0) then Done e w'
        else Done OK (set_edges (edges w ++ [(modaddr importer, modaddr exporter)]) w')
    | [] => Done OK (set_edges (edges w ++ [(modaddr importer, modaddr exporter)]) w')
    end.

(** Modelled from the spec: modlib_registry_foreach, the registry traversal,
    "given a callback, invoke it once per currently loaded module
    (most-recent-first) until the callback signals stop or the set is
    exhausted; propagate the callback's error, if any, instead of
    continuing".  The callback stops the traversal by a non-zero result,
    which is the result of the traversal. *)
Fixpoint registry_walk {A} (callback : module_s → A → M (Z * A))
    (mods : list module_s) (arg : A) : M (Z * A) :=
  match mods with
  | [] => ret (OK, arg)
  | modp :: rest =>
      let* (r, arg') := callback modp arg in
      if bool_decide (r = 0) then registry_walk callback rest arg'
      else ret (r, arg')
  end.

Definition modlib_registry_foreach {A} (callback : module_s → A → M (Z * A))
    (arg : A) : M (Z * A) :=
  let* w := get_world in
  registry_walk callback (g_mod_registry w) arg.

(** Modelled from the spec: modlib_getsymtab, the built-in export accessor,
    which "returns the kernel's compiled export table and its entry
    count". *)
Definition modlib_getsymtab : M (Z * Z) :=
  let* w := get_world in
  ret (g_modlib_symtab w, g_modlib_nsymbols w).

(** ** The functions of modlib_symbols.c *)

Section Modlib.

Context (cfg : config).

Definition uintptr (x : Z) : Z := x mod 2 ^ uintptr_bits cfg.

(** struct mod_exportinfo_s *)
Record mod_exportinfo_s := mkExportinfo {
  ei_name : list ascii;             (* Symbol name to find *)
  ei_modp : module_s;               (* The module that needs the symbol *)
  ei_symbol : option symtab_s       (* Symbol info returned (if found) *)
}.

(** The loop of modlib_symname.  Every turn that does not return advances
    [offset] by the increment, so that [fuel] bounds the number of turns. *)
Fixpoint symname_loop (fuel : nat) (li : mod_loadinfo_s) (offset bytesread : Z)
  : M (Z * mod_loadinfo_s) :=
  match fuel with
  | O => fun _ => Timeout
  | S fuel' =>
      (* Get the number of bytes to read *)
      let readlen := buflen li - bytesread in
      if bool_decide (offset + readlen > filelen li)
         && bool_decide (filelen li ≤ offset)
      then ret (- EINVAL, li)
      else
        let readlen := if bool_decide (offset + readlen > filelen li)
                       then filelen li - offset else readlen in
        (* Read that number of bytes into the array *)
        let* (r, bytes) := modlib_read readlen offset in
        if bool_decide (r < 0) then ret (r, li)
        else
          match store_bytes (iobuffer li) bytesread bytes with
          | None => crash OutOfBounds
          | Some buf =>
              let li := set_iobuffer buf li in
              let bytesread' := bytesread + readlen in
              (* Did we read the NUL terminator? *)
              if memchr_nul buf bytesread readlen then ret (OK, li)
              else
                (* No.. then we have to read more *)
                let* (r, li) :=
                  modlib_reallocbuffer li (CONFIG_MODLIB_BUFFERINCR cfg) in
                if bool_decide (r < 0) then ret (r, li)
                else symname_loop fuel' li
                       (offset + CONFIG_MODLIB_BUFFERINCR cfg) bytesread'
          end
  end.

(** Turns enough for any file, as long as the increment is positive. *)
Definition symname_fuel (li : mod_loadinfo_s) (offset : Z) : nat :=
  S (S (Z.to_nat (filelen li - offset))).

(** modlib_symname.  The file offset of the name is the sum of the two
    fields as numbers, which is what the addition of the source gives as
    long as the sum fits the unsigned type of the fields and the type of a
    file offset. *)
Definition modlib_symname (li : mod_loadinfo_s) (sym : Elf_Sym) (sh_offset : Z)
  : M (Z * mod_loadinfo_s) :=
  if bool_decide (st_name sym = 0) then ret (- ESRCH, li)
  else
    let offset := sh_offset + st_name sym in
    symname_loop (symname_fuel li offset) li offset 0.

Definition modlib_symcallback (modp : module_s) (exportinfo : mod_exportinfo_s)
  : M (Z * mod_exportinfo_s) :=
  (* Check if this module exports a symbol of that name *)
  let* symbol := symtab_findbyname (exports modp) (ei_name exportinfo)
                   (nexports modp) in
  let exportinfo :=
    mkExportinfo (ei_name exportinfo) (ei_modp exportinfo) symbol in
  match symbol with
  | Some _ =>
      let* r := modlib_depend (ei_modp exportinfo) modp in
      if bool_decide (r < 0) then ret (r, exportinfo)
      else ret (SYM_FOUND, exportinfo)
  | None => ret (SYM_NOT_FOUND, exportinfo)
  end.

Definition modlib_readsym (li : mod_loadinfo_s) (index : Z) (sym : Elf_Sym)
    (symtab : Elf_Shdr) : M (Z * Elf_Sym) :=
  (* Verify that the symbol table index lies within symbol table *)
  if bool_decide (index < 0)
     || bool_decide (index > Z.quot (sh_size symtab) (sizeof_Elf_Sym cfg))
  then ret (- EINVAL, sym)
  else
    let offset := sh_offset symtab + sizeof_Elf_Sym cfg * index in
    let* (r, bytes) := modlib_read (sizeof_Elf_Sym cfg) offset in
    if bool_decide (r < 0) then ret (r, sym)
    else ret (r, decode_Elf_Sym cfg bytes).

(** The SHN_UNDEF case of modlib_symvalue, after the name is in the
    buffer. *)
Definition symvalue_undef (modp : module_s) (li : mod_loadinfo_s) (sym : Elf_Sym)
  : M (Z * mod_loadinfo_s * Elf_Sym) :=
  let exportinfo := mkExportinfo (iobuffer li) modp None in
  let* (r, exportinfo) :=
    modlib_registry_foreach modlib_symcallback exportinfo in
  if bool_decide (r < 0) then ret (r, li, sym)
  else
    (* If the symbol is not exported by any module, then check if the
       base code exports a symbol of this name. *)
    let* symbol :=
      match ei_symbol exportinfo with
      | None =>
          let* (symtab, nsymbols) := modlib_getsymtab in
          symtab_findbyname symtab (ei_name exportinfo) nsymbols
      | Some e => ret (Some e)
      end in
    match symbol with
    | None => ret (- ENOENT, li, sym)
    | Some e =>
        ret (OK, li, set_st_value (uintptr (st_value sym + sym_value e)) sym)
    end.

Definition modlib_symvalue (modp : module_s) (li : mod_loadinfo_s)
    (sym : Elf_Sym) (sh_offset : Z) : M (Z * mod_loadinfo_s * Elf_Sym) :=
  if bool_decide (st_shndx sym = SHN_COMMON) then ret (- ENOSYS, li, sym)
  else if bool_decide (st_shndx sym = SHN_ABS) then ret (OK, li, sym)
  else if bool_decide (st_shndx sym = SHN_UNDEF) then
    (* Get the name of the undefined symbol *)
    let* (r, li) := modlib_symname li sym sh_offset in
    if bool_decide (r < 0) then ret (r, li, sym)
    else symvalue_undef modp li sym
  else
    match index (shdr li) (st_shndx sym) with
    | None => crash OutOfBounds
    | Some sec =>
        let secbase := sh_addr sec in
        ret (OK, li, set_st_value (uintptr (st_value sym + secbase)) sym)
    end.

Fixpoint free_names (symbol : Z) (i : Z) (n : nat) : M unit :=
  match n with
  | O => ret tt
  | S n' =>
      let* e := load_entry symbol i in
      let* _ := lib_free (sym_name e) in
      free_names symbol (i + 1) n'
  end.

Definition modlib_freesymtab (modp : module_s) : M unit :=
  let symbol := exports modp in
  if bool_decide (symbol ≠ NULL) then
    let* _ := free_names symbol 0 (Z.to_nat (nexports modp)) in
    lib_free symbol
  else ret tt.

(** Count the "live" symbols: the first loop of modlib_insertsymtab. *)
Fixpoint count_live (sym : list Elf_Sym) (i : Z) (n : nat) (symCount : Z) : M Z :=
  match n with
  | O => ret symCount
  | S n' =>
      match index sym i with
      | None => crash OutOfBounds
      | Some s =>
          count_live sym (i + 1) n'
            (if bool_decide (st_name s ≠ 0) then symCount + 1 else symCount)
      end
  end.

(** Build out module's symbol table: the second loop.  [r] is the variable
    [ret] of the C function. *)
Fixpoint build_exports (modp : module_s) (li : mod_loadinfo_s)
    (shdr0 : Elf_Shdr) (sym : list Elf_Sym) (symbol : Z) (r : Z)
    (i j : Z) (n : nat) : M (Z * module_s * mod_loadinfo_s) :=
  match n with
  | O => ret (r, modp, li)
  | S n' =>
      match index sym i with
      | None => crash OutOfBounds
      | Some s =>
          if bool_decide (st_name s ≠ 0) then
            match index (shdr li) (sh_link shdr0) with
            | None => crash OutOfBounds
            | Some strTab =>
                let* (r, li) := modlib_symname li s (sh_offset strTab) in
                if bool_decide (r < 0) then
                  let* _ := lib_free (exports modp) in
                  ret (r, set_exports NULL modp, li)
                else
                  let* name := strdup (iobuffer li) in
                  let* _ := store_entry symbol j (mkSymtab name (st_value s)) in
                  build_exports modp li shdr0 sym symbol r (i + 1) (j + 1) n'
            end
          else build_exports modp li shdr0 sym symbol r (i + 1) j n'
      end
  end.

Definition modlib_insertsymtab (modp : module_s) (li : mod_loadinfo_s)
    (shdr0 : Elf_Shdr) (sym : list Elf_Sym)
  : M (Z * module_s * mod_loadinfo_s) :=
  let* _ := if bool_decide (exports modp ≠ NULL)
            then modlib_freesymtab modp else ret tt in
  let nSym := Z.quot (sh_size shdr0) (sizeof_Elf_Sym cfg) in
  let* symCount := count_live sym 0 (Z.to_nat nSym) 0 in
  if bool_decide (symCount > 0) then
    let* symbol := lib_malloc (OTab (replicate (Z.to_nat symCount) None)) in
    let modp := set_exports symbol modp in
    let li := set_exported symbol li in
    if bool_decide (symbol ≠ NULL) then
      let modp := set_nexports symCount modp in
      build_exports modp li shdr0 sym symbol 0 0 0 (Z.to_nat nSym)
    else ret (- ENOMEM, modp, li)
  else ret (0, modp, li).

End Modlib.

(** ** The other functions of modlib_symbols.c *)

Definition SHT_SYMTAB : Z := 2.

(** The fields of struct mod_loadinfo_s that modlib_findsymtab reads and
    writes beside [shdr]: [ehdr.e_shnum], [symtabidx] and [strtabidx]. *)
Record symtab_location := mkLocation {
  e_shnum : Z;
  symtabidx : Z;
  strtabidx : Z
}.

(** The loop of modlib_findsymtab, from section [i] on, [n] sections to
    go. *)
Fixpoint findsymtab_scan (shdrs : list Elf_Shdr) (loc : symtab_location)
    (i : Z) (n : nat) : M symtab_location :=
  match n with
  | O => ret loc
  | S n' =>
      match index shdrs i with
      | None => crash OutOfBounds
      | Some sec =>
          if bool_decide (sh_type sec = SHT_SYMTAB)
          then ret (mkLocation (e_shnum loc) i (sh_link sec))
          else findsymtab_scan shdrs loc (i + 1) n'
      end
  end.

Definition modlib_findsymtab (li : mod_loadinfo_s) (loc : symtab_location)
  : M (Z * symtab_location) :=
  (* Find the symbol table section header and its associated string table *)
  let* loc := findsymtab_scan (shdr li) loc 1 (Z.to_nat (e_shnum loc - 1)) in
  (* Verify that there is a symbol and string table *)
  if bool_decide (symtabidx loc = 0) then ret (- EINVAL, loc)
  else ret (OK, loc).







Section GlobalLookup.

Context (cfg : config).


End GlobalLookup.

(** ** A concrete target: little-endian ELF32 *)

Definition le_word (bytes : list ascii) : Z :=
  foldr (fun b acc => Z.of_N (N_of_ascii b) + 256 * acc) 0 bytes.

(** Modelled from the spec: the entry of an ELF32 symbol table, one of the
    "standard relocatable-object-file conventions" that the spec refers to:
    sixteen bytes holding st_name, st_value, st_size (four bytes each),
    st_info, st_other (one byte each) and st_shndx (two bytes). *)
Definition decode_Elf32_Sym (b : list ascii) : Elf_Sym :=
  mkSym (le_word (take 4 b)) (le_word (take 4 (drop 4 b)))
        (le_word (take 4 (drop 8 b))) (le_word (take 1 (drop 12 b)))
        (le_word (take 1 (drop 13 b))) (le_word (take 2 (drop 14 b))).

Definition elf32 (incr : Z) : config := mkConfig incr 16 32 decode_Elf32_Sym.

(** Bytes of a file, written as a string. *)
Definition bytes (s : string) : list ascii := list_ascii_of_string s.

Definition zeros (n : nat) : list ascii := replicate n NUL.

(** * Notions used by the statements *)

(** Two worlds that differ in the read and allocation scripts only. *)
Definition same_store (w w' : world) : Prop :=
  image w' = image w ∧ mem w' = mem w ∧ brk w' = brk w
  ∧ g_mod_registry w' = g_mod_registry w
  ∧ g_modlib_symtab w' = g_modlib_symtab w
  ∧ g_modlib_nsymbols w' = g_modlib_nsymbols w
  ∧ edges w' = edges w ∧ depend_script w' = depend_script w.

(** A run of bytes without a terminator. *)
Definition no_nul (l : list ascii) : Prop := Forall (λ c, c ≠ NUL) l.

(** The lookup that modlib_symcallback makes in the export table of a
    module. *)
Definition module_lookup (m : module_s) (name : list ascii)
  : M (option symtab_s) :=
  symtab_findbyname (exports m) name (nexports m).

(** Two worlds with the same memory, registry and base table. *)
Definition same_modules (w v : world) : Prop :=
  mem v = mem w ∧ g_mod_registry v = g_mod_registry w
  ∧ g_modlib_symtab v = g_modlib_symtab w
  ∧ g_modlib_nsymbols v = g_modlib_nsymbols w.

(** The next registration of a dependency goes through. *)
Definition depend_goes_through (w : world) : Prop :=
  match depend_script w with
  | e :: _ => 0 ≤ e
  | [] => True
  end.

(** ** Notions used by the further properties *)

(** The addresses that teardown of a table frees as names: the name
    pointers that are not NULL. *)
Definition live_names (t : list symtab_s) : list Z :=
  filter (λ a, a ≠ NULL) (sym_name <$> t).

(** Memory after the objects at the addresses [l] are freed, in order. *)
Definition freed (l : list Z) (m : gmap Z object) : gmap Z object :=
  foldl (λ m a, delete a m) m l.

(** [e] is one of the first [n] entries of the table at [p]. *)
Definition entry_of (w : world) (p n : Z) (e : symtab_s) : Prop :=
  p ≠ NULL
  ∧ ∃ t i, mem w !! p = Some (OTab t) ∧ 0 ≤ i < n
      ∧ index t i = Some (Some e).











(** * Concrete sessions *)

(** A string table holding "foo", "bar" and "baz" at offsets 1, 5 and 9;
    three installed modules, the newest first: [modD] exports "qux", [modB]
    and [modA] both export "foo"; the base code exports "bar"; [modC] is the
    module being loaded. *)
Definition strtab : list ascii :=
  zeros 1 ++ bytes "foo" ++ zeros 1 ++ bytes "bar" ++ zeros 1
  ++ bytes "baz" ++ zeros 1.

Definition modA : module_s := mkModule 1 11 1.
Definition modB : module_s := mkModule 2 21 1.
Definition modC : module_s := mkModule 3 NULL 0.
Definition modD : module_s := mkModule 4 41 1.

Definition installed : gmap Z object :=
  <[10 := OStr (bytes "foo")]> (<[11 := OTab [Some (mkSymtab 10 0x1000)]]>
  (<[20 := OStr (bytes "foo")]> (<[21 := OTab [Some (mkSymtab 20 0x2000)]]>
  (<[30 := OStr (bytes "bar")]> (<[31 := OTab [Some (mkSymtab 30 0x3000)]]>
  (<[40 := OStr (bytes "qux")]> (<[41 := OTab [Some (mkSymtab 40 0x4000)]]>
   ∅))))))).

Definition w_loaded : world :=
  mkWorld strtab installed 100 [modD; modB; modA] 31 1 [] [] [] [].

(** A world with the same file and nothing installed. *)
Definition w_fresh : world := mkWorld strtab ∅ 100 [] NULL 0 [] [] [] [].

Definition sections : list Elf_Shdr :=
  [mkShdr 0 0 0 0 0; mkShdr 1 0x8000 0 64 0].

(** A session whose buffer has its initial capacity of 32 bytes. *)
Definition li_fresh : mod_loadinfo_s :=
  mkLoadinfo 13 (replicate 32 uninit_byte) 32 sections NULL.

(** The buffer of that session after a name at offset 1, 5 or 9 was read. *)
Definition buffer_at (offset : nat) : list ascii :=
  drop offset strtab ++ replicate (19 + offset) uninit_byte.

Definition undefined (name value : Z) : Elf_Sym :=
  mkSym name value 0 0 0 SHN_UNDEF.

(** The encoding that [decode_Elf32_Sym] reads back. *)
Fixpoint le_bytes (n : nat) (x : Z) : list ascii :=
  match n with
  | O => []
  | S n' => ascii_of_N (Z.to_N (x mod 256)) :: le_bytes n' (x / 256)
  end.

Definition encode_Elf32_Sym (s : Elf_Sym) : list ascii :=
  le_bytes 4 (st_name s) ++ le_bytes 4 (st_value s) ++ le_bytes 4 (st_size s)
  ++ le_bytes 1 (st_info s) ++ le_bytes 1 (st_other s)
  ++ le_bytes 2 (st_shndx s).

Definition null_sym : Elf_Sym := mkSym 0 0 0 0 0 0.
Definition foo_sym : Elf_Sym := mkSym 1 0x10 4 0x12 0 1.

(** An object file with a symbol table of two entries at offset 0, the
    string table behind it at offset 32 and three bytes of padding. *)
Definition object_file : list ascii :=
  encode_Elf32_Sym null_sym ++ encode_Elf32_Sym foo_sym ++ strtab ++ zeros 3.

Definition symtab_hdr : Elf_Shdr := mkShdr 2 0 0 32 2.

Definition w_object : world :=
  mkWorld object_file ∅ 100 [] NULL 0 [] [] [] [].

Definition li_object : mod_loadinfo_s :=
  mkLoadinfo 48 (replicate 32 uninit_byte) 32
    [mkShdr 0 0 0 0 0; symtab_hdr; mkShdr 3 0 32 13 0] NULL.

Definition named_syms : list Elf_Sym :=
  [null_sym; mkSym 1 0x10 0 0 0 1; mkSym 5 0x20 0 0 0 1].

(** The name of the last symbol lies outside the file. *)
Definition broken_syms : list Elf_Sym :=
  [null_sym; mkSym 1 0x10 0 0 0 1; mkSym 500 0x20 0 0 0 1].

Definition unnamed_syms : list Elf_Sym := [null_sym; null_sym; null_sym].

(** A symbol table section of three entries whose string table is
    section 0 of [sections], at offset 0 of the file. *)
Definition three_syms : Elf_Shdr := mkShdr 2 0 0 48 0.

(** What C7 asks of a call: success, and a table of length zero attached to
    the module. *)
Definition attaches_empty_table
    (o : outcome (Z * module_s * mod_loadinfo_s)) : Prop :=
  ∃ modp' li' w',
    o = Done (0, modp', li') w'
    ∧ exports modp' ≠ NULL ∧ nexports modp' = 0
    ∧ mem w' !! exports modp' = Some (OTab []).

Definition long_name : list ascii :=
  bytes "0123456789abcdefghijklmnopqrstuvwxyzABCDEFGHIJKLMNOPQRSTUVWXYZ-+=/_.:,;*".

(** A string table with a name of 72 bytes at offset 1; the base code
    exports that name. *)
Definition long_strtab : list ascii :=
  zeros 1 ++ long_name ++ zeros 1 ++ bytes "tail" ++ zeros 1.

Definition w_long : world :=
  mkWorld long_strtab
    (<[50 := OStr long_name]> (<[51 := OTab [Some (mkSymtab 50 0x5000)]]> ∅))
    100 [] 51 1 [] [] [] [].

(** A session on that file whose buffer has its initial capacity. *)
Definition li_long : mod_loadinfo_s :=
  mkLoadinfo 79 (replicate 32 uninit_byte) 32 sections NULL.

(** A session whose buffer has grown once, from 32 bytes to 64, while an
    earlier name was read. *)
Definition li_grown : mod_loadinfo_s :=
  mkLoadinfo 79 (replicate 64 uninit_byte) 64 sections NULL.

(** Two installed modules that both export the name of 72 bytes,
    [rival_new] loaded after [rival_old]; the base code exports nothing. *)
Definition rival_old : module_s := mkModule 6 61 1.
Definition rival_new : module_s := mkModule 7 71 1.

Definition w_rivals : world :=
  mkWorld long_strtab
    (<[60 := OStr long_name]> (<[61 := OTab [Some (mkSymtab 60 0x6000)]]>
    (<[70 := OStr long_name]> (<[71 := OTab [Some (mkSymtab 70 0x7000)]]>
     ∅))))
    100 [rival_new; rival_old] NULL 0 [] [] [] [].

(** ** Sessions for the further properties *)

(** A file that ends inside a name: no terminator follows offset 1. *)
Definition w_cut : world :=
  mkWorld (zeros 1 ++ bytes "abc") ∅ 100 [] NULL 0 [] [] [] [].

Definition li_cut : mod_loadinfo_s :=
  mkLoadinfo 4 (replicate 32 uninit_byte) 32 sections NULL.

(** The session [li_long] after the long name was read: the buffer has
    grown twice. *)
Definition li_long_read : mod_loadinfo_s :=
  Eval vm_compute in
    match modlib_symname (elf32 32) li_long (undefined 1 0) 0 w_long with
    | Done (_, li) _ => li
    | _ => li_long
    end.

(** The section count and indices of the object file before the symbol
    table is located. *)
Definition loc_object : symtab_location := mkLocation 3 0 0.




(** * Properties *)

(** ** Running computations *)

Lemma bind_Done {A B} (m : M A) (k : A → M B) w b w' :
  bind m k w = Done b w' →
  ∃ a w1, m w = Done a w1 ∧ k a w1 = Done b w'.
Proof.
  unfold bind. destruct (m w) as [a w1| |]; [eauto | discriminate | discriminate].
Qed.

Lemma ret_Done {A} (a b : A) w w' : ret a w = Done b w' → a = b ∧ w = w'.
Proof. unfold ret. intros H. by inversion H. Qed.

(** Splits a hypothesis that says a computation ended normally into what
    each of its steps did. *)
Ltac step H :=
  cbv beta iota in H;
  match type of H with
  | bind _ _ _ = Done _ _ =>
      let a := fresh "a" in let w := fresh "w" in
      let H1 := fresh "Hrun" in let H2 := fresh "Hk" in
      apply bind_Done in H; destruct H as (a & w & H1 & H2); rename H2 into H
  | ret _ _ = Done _ _ =>
      apply ret_Done in H as [? ?]; simplify_eq
  | crash _ _ = Done _ _ => discriminate H
  | Fault _ = Done _ _ => discriminate H
  | Timeout = Done _ _ => discriminate H
  | Done _ _ = Done _ _ => inversion H; subst; clear H
  end.

(** ** What the name reader leaves alone *)

Lemma same_store_refl w : same_store w w.
Proof. by repeat split. Qed.

Lemma same_store_trans w1 w2 w3 :
  same_store w1 w2 → same_store w2 w3 → same_store w1 w3.
Proof. unfold same_store. intros ? ?. intuition congruence. Qed.

Lemma modlib_read_store n off w r w' :
  modlib_read n off w = Done r w' → same_store w w'.
Proof.
  unfold modlib_read. intros H.
  repeat case_match; simplify_eq; by repeat split.
Qed.

Lemma alloc_succeeds_store w b w' :
  alloc_succeeds w = Done b w' → same_store w w'.
Proof. unfold alloc_succeeds. intros H. simplify_eq. by repeat split. Qed.

Lemma modlib_reallocbuffer_store li n w r li' w' :
  modlib_reallocbuffer li n w = Done (r, li') w' →
  same_store w w' ∧ filelen li' = filelen li ∧ shdr li' = shdr li
  ∧ exported li' = exported li.
Proof.
  unfold modlib_reallocbuffer. intros H. step H.
  apply alloc_succeeds_store in Hrun. destruct a; step H; done.
Qed.

Section NameReader.

Context (cfg : config).

Lemma symname_loop_store fuel : ∀ li offset bytesread w r li' w',
  symname_loop cfg fuel li offset bytesread w = Done (r, li') w' →
  same_store w w' ∧ filelen li' = filelen li ∧ shdr li' = shdr li
  ∧ exported li' = exported li.
Proof.
  induction fuel as [|fuel IH]; intros li offset bytesread w r li' w' H;
    [discriminate|].
  simpl in H.
  destruct (_ && _); [step H; split; [apply same_store_refl | done]|].
  step H. destruct a as [r0 bs]. apply modlib_read_store in Hrun.
  case_bool_decide; [by step H|].
  destruct (store_bytes _ _ _) as [buf|]; [|step H].
  destruct (memchr_nul _ _ _); [by step H|].
  step H. destruct a as [r1 li1].
  apply modlib_reallocbuffer_store in Hrun0 as (Hs & Hf & Hh & He).
  case_bool_decide.
  - step H. split; [by eapply same_store_trans|]. by rewrite Hf, Hh, He.
  - apply IH in H as (Hs' & Hf' & Hh' & He').
    split; [eauto using same_store_trans|].
    by rewrite Hf', Hh', He', Hf, Hh, He.
Qed.

Lemma modlib_symname_store li sym sh_offset w r li' w' :
  modlib_symname cfg li sym sh_offset w = Done (r, li') w' →
  same_store w w' ∧ filelen li' = filelen li ∧ shdr li' = shdr li
  ∧ exported li' = exported li.
Proof.
  unfold modlib_symname. case_bool_decide as Hname.
  - intros H. step H. split; [apply same_store_refl | done].
  - apply symname_loop_store.
Qed.

End NameReader.

(** ** The streaming name reader *)

Lemma modlib_read_total n off w : ∃ r w', modlib_read n off w = Done r w'.
Proof. unfold modlib_read. repeat (case_match || case_bool_decide); eauto. Qed.

Lemma modlib_reallocbuffer_total li n w :
  ∃ r w', modlib_reallocbuffer li n w = Done r w'.
Proof.
  unfold modlib_reallocbuffer, bind, alloc_succeeds.
  repeat case_match; eauto.
Qed.

Lemma modlib_read_range n off w r bs w' :
  modlib_read n off w = Done (r, bs) w' → ¬ r < 0 → 0 ≤ off ∧ 0 ≤ n.
Proof.
  unfold modlib_read, read_image, ENODATA. intros H Hr.
  repeat (case_match || case_bool_decide); simplify_eq; lia.
Qed.

Lemma cstring_app name rest :
  no_nul name → cstring (name ++ NUL :: rest) = Some name.
Proof.
  induction 1 as [|c name Hc _ IH]; [done|].
  cbn [app cstring]. unfold is_nul at 1.
  rewrite bool_decide_eq_false_2 by done. by rewrite IH.
Qed.

Lemma cstring_Some buf : ∀ name,
  cstring buf = Some name → ∃ rest, buf = name ++ NUL :: rest ∧ no_nul name.
Proof.
  induction buf as [|c buf IH]; intros name H; simpl in H; [done|].
  unfold is_nul in H. case_bool_decide as Hc.
  - simplify_eq. exists buf. split; [done | constructor].
  - destruct (cstring buf) as [s|]; [|done]. simplify_eq.
    destruct (IH s eq_refl) as (rest & -> & Hs).
    exists rest. split; [done | by constructor].
Qed.

Lemma cstring_None buf : cstring buf = None → no_nul buf.
Proof.
  induction buf as [|c buf IH]; intros H; [constructor|].
  cbn [cstring] in H. unfold is_nul in H. case_bool_decide as Hc; [done|].
  destruct (cstring buf); [done|]. constructor; [done | by apply IH].
Qed.

Lemma existsb_no_nul l : no_nul l → existsb is_nul l = false.
Proof.
  induction 1 as [|c l Hc _ IH]; [done|].
  cbn [existsb]. unfold is_nul at 1. by rewrite bool_decide_eq_false_2.
Qed.

Lemma existsb_nul l : NUL ∈ l → existsb is_nul l = true.
Proof.
  intros H. apply existsb_exists. exists NUL.
  split; [by apply list_elem_of_In | reflexivity].
Qed.

Lemma script_read_done w :
  read_script w = [] → set_read_script (tail (read_script w)) w = w.
Proof. destruct w. simpl. by intros ->. Qed.

Lemma script_alloc_done w :
  alloc_script w = [] → set_alloc_script (tail (alloc_script w)) w = w.
Proof. destruct w. simpl. by intros ->. Qed.

Lemma modlib_read_ok (n off : nat) w :
  read_script w = [] →
  (off + n ≤ length (image w))%nat →
  modlib_read (Z.of_nat n) (Z.of_nat off) w
  = Done (OK, take n (drop off (image w))) w.
Proof.
  intros Hscript Hrange. unfold modlib_read, read_image.
  rewrite script_read_done by done. rewrite Hscript.
  rewrite bool_decide_eq_true_2 by lia. by rewrite !Nat2Z.id.
Qed.

Lemma modlib_reallocbuffer_ok li (n : nat) w :
  alloc_script w = [] →
  modlib_reallocbuffer li (Z.of_nat n) w
  = Done (OK, set_buflen (buflen li + Z.of_nat n)
                (set_iobuffer (iobuffer li ++ replicate n uninit_byte) li)) w.
Proof.
  intros Hscript. unfold modlib_reallocbuffer, bind, alloc_succeeds.
  rewrite script_alloc_done by done. rewrite Hscript. by rewrite Nat2Z.id.
Qed.

Lemma store_bytes_ok buf (pos : nat) bs :
  (pos + length bs ≤ length buf)%nat →
  store_bytes buf (Z.of_nat pos) bs
  = Some (take pos buf ++ bs ++ drop (pos + length bs) buf).
Proof.
  intros Hfit. unfold store_bytes.
  rewrite bool_decide_eq_true_2 by lia. by rewrite Nat2Z.id.
Qed.

Lemma memchr_stored buf (pos n : nat) bs tl :
  (pos ≤ length buf)%nat → length bs = n →
  memchr_nul (take pos buf ++ bs ++ tl) (Z.of_nat pos) (Z.of_nat n)
  = existsb is_nul bs.
Proof.
  intros Hpos <-. unfold memchr_nul. rewrite !Nat2Z.id.
  rewrite drop_app_length'; [|by rewrite length_take; lia].
  by rewrite take_app_length.
Qed.

Section NameReaderRuns.

Context (cfg : config).

Lemma symname_loop_returns fuel : ∀ li offset bytesread w,
  0 < CONFIG_MODLIB_BUFFERINCR cfg →
  (filelen li < offset → (1 ≤ fuel)%nat) →
  (offset ≤ filelen li → (Z.to_nat (filelen li - offset) + 2 ≤ fuel)%nat) →
  symname_loop cfg fuel li offset bytesread w ≠ Timeout.
Proof.
  induction fuel as [|fuel IH]; intros li offset bytesread w Hincr Hpast Hin.
  { destruct (decide (offset ≤ filelen li)) as [Hle|Hgt].
    - specialize (Hin Hle). lia.
    - assert (filelen li < offset) as Hlt by lia. specialize (Hpast Hlt). lia. }
  simpl. unfold ret, crash. destruct (_ && _) eqn:Heof; [done|].
  unfold bind at 1.
  destruct (modlib_read_total
              (if bool_decide (offset + (buflen li - bytesread) > filelen li)
               then filelen li - offset else buflen li - bytesread) offset w)
    as ([r bs] & w1 & Hread).
  rewrite Hread.
  destruct (bool_decide_reflect (r < 0)) as [Hr|Hr]; [done|].
  destruct (store_bytes _ _ _) as [buf|]; [|done].
  destruct (memchr_nul _ _ _); [done|].
  unfold bind at 1.
  destruct (modlib_reallocbuffer_total (set_iobuffer buf li)
              (CONFIG_MODLIB_BUFFERINCR cfg) w1) as ([r1 li1] & w2 & Hgrow).
  rewrite Hgrow.
  destruct (bool_decide_reflect (r1 < 0)) as [Hr1|Hr1]; [done|].
  apply modlib_reallocbuffer_store in Hgrow as (_ & Hf & _).
  simpl in Hf.
  apply modlib_read_range in Hread as [Hoff Hlen]; [|done].
  apply andb_false_iff in Heof.
  assert (offset ≤ filelen li) as Hle.
  { destruct Heof as [H1|H1]; apply bool_decide_eq_false in H1;
      repeat case_bool_decide; lia. }
  specialize (Hin Hle).
  apply IH; [done| |]; rewrite Hf; intros; lia.
Qed.

(** With a positive increment the loop of modlib_symname ends: the fuel that
    [modlib_symname] gives it is never used up. *)
Theorem modlib_symname_returns li sym sh_offset w :
  0 < CONFIG_MODLIB_BUFFERINCR cfg →
  modlib_symname cfg li sym sh_offset w ≠ Timeout.
Proof.
  intros Hincr. unfold modlib_symname. case_bool_decide; [done|].
  apply symname_loop_returns; [done| |]; unfold symname_fuel; lia.
Qed.
Lemma symname_loop_reads pre name rest (i : nat) fuel : ∀ li (pos : nat) w,
  image w = pre ++ name ++ NUL :: rest →
  no_nul name →
  read_script w = [] → alloc_script w = [] →
  CONFIG_MODLIB_BUFFERINCR cfg = Z.of_nat i → (0 < i)%nat →
  filelen li = Z.of_nat (length (image w)) →
  buflen li = Z.of_nat (pos + i) →
  length (iobuffer li) = (pos + i)%nat →
  (pos ≤ length name)%nat →
  take pos (iobuffer li) = take pos name →
  (length name - pos < fuel)%nat →
  ∃ li',
    symname_loop cfg fuel li (Z.of_nat (length pre + pos)) (Z.of_nat pos) w
    = Done (OK, li') w
    ∧ cstring (iobuffer li') = Some name.
Proof.
  induction fuel as [|fuel IH];
    intros li pos w Himg Hname Hrs Has Hincr Hi Hflen Hblen Hlen Hpos Hread Hfuel;
    [lia|].
  set (s := name ++ NUL :: rest).
  assert (length (image w) = (length pre + length name + 1 + length rest)%nat)
    as Himglen.
  { rewrite Himg, !length_app. simpl. lia. }
  (* the number of bytes of this turn *)
  set (rl := (i `min` (length name + 1 + length rest - pos))%nat).
  assert ((if bool_decide (Z.of_nat (length pre + pos)
                           + (buflen li - Z.of_nat pos) > filelen li)
           then filelen li - Z.of_nat (length pre + pos)
           else buflen li - Z.of_nat pos) = Z.of_nat rl) as Hrl.
  { case_bool_decide; lia. }
  cbn [symname_loop].
  rewrite (bool_decide_eq_false_2 (filelen li ≤ _)) by lia.
  rewrite andb_false_r, Hrl.
  unfold bind at 1. rewrite modlib_read_ok by (done || lia).
  assert (take rl (drop (length pre + pos) (image w)) = take rl (drop pos s))
    as ->.
  { rewrite Himg. by rewrite drop_app_add'. }
  assert (length (take rl (drop pos s)) = rl) as Hbytes.
  { rewrite length_take, length_drop. unfold s. rewrite length_app. simpl. lia. }
  rewrite (bool_decide_eq_false_2 (OK < 0)) by (unfold OK; lia).
  rewrite store_bytes_ok by lia. rewrite Hbytes.
  cbn [set_iobuffer iobuffer].
  rewrite memchr_stored; [|lia|done].
  destruct (decide (length name < pos + rl)%nat) as [Hfound|Hmore].
  - (* the terminator is in this chunk *)
    rewrite existsb_nul.
    + eexists. split; [done|]. simpl. rewrite Hread.
      assert (take pos name = take pos s) as ->.
      { unfold s. by rewrite take_app_le. }
      rewrite app_assoc, take_take_drop.
      unfold s. rewrite take_app_ge by lia.
      replace (pos + rl - length name)%nat
        with (S (pos + rl - length name - 1)) by lia.
      cbn [take]. rewrite <- !app_assoc. cbn [app].
      by apply cstring_app.
    + apply list_elem_of_lookup. exists (length name - pos)%nat.
      rewrite lookup_take_lt by lia. rewrite lookup_drop. unfold s.
      replace (pos + (length name - pos))%nat with (length name + 0)%nat by lia.
      by rewrite lookup_app_r, Nat.add_comm, Nat.add_sub by lia.
  - (* it is not: the chunk is a full one, inside the name *)
    assert (rl = i) as Hfull by lia.
    assert (take rl (drop pos s) = take i (drop pos name)) as Hchunk.
    { rewrite Hfull. unfold s. rewrite drop_app_le by lia.
      rewrite take_app_le; [done|]. rewrite length_drop. lia. }
    rewrite existsb_no_nul.
    2:{ rewrite Hchunk. unfold no_nul in *.
        by apply Forall_take, Forall_drop. }
    unfold bind at 1. rewrite Hincr, modlib_reallocbuffer_ok by done.
    rewrite (bool_decide_eq_false_2 (OK < 0)) by (unfold OK; lia).
    replace (Z.of_nat (length pre + pos) + Z.of_nat i)
      with (Z.of_nat (length pre + (pos + i))) by lia.
    replace (Z.of_nat pos + Z.of_nat rl) with (Z.of_nat (pos + i)) by lia.
    apply IH; try done; cbn [set_buflen set_iobuffer filelen buflen iobuffer].
    + lia.
    + rewrite !length_app, Hbytes, length_take, length_drop, length_replicate.
      lia.
    + lia.
    + rewrite Hread, Hchunk, Hfull.
      rewrite app_assoc, take_take_drop.
      rewrite <- app_assoc. rewrite take_app_length'; [done|].
      rewrite length_take. lia.
    + lia.
Qed.

(** When the capacity of the buffer equals the increment as the call starts
    (a session that has not grown its buffer, configured with a buffer size
    equal to the increment), every chunk follows the one before it and the
    buffer ends up with the name as it is in the file, whatever its
    length. *)
Theorem symname_contiguous li sym sh_offset w name :
  0 < CONFIG_MODLIB_BUFFERINCR cfg →
  buflen li = CONFIG_MODLIB_BUFFERINCR cfg →
  Z.of_nat (length (iobuffer li)) = buflen li →
  filelen li = Z.of_nat (length (image w)) →
  read_script w = [] → alloc_script w = [] →
  st_name sym ≠ 0 → 0 ≤ sh_offset + st_name sym →
  cstring (drop (Z.to_nat (sh_offset + st_name sym)) (image w)) = Some name →
  ∃ li',
    modlib_symname cfg li sym sh_offset w = Done (OK, li') w
    ∧ cstring (iobuffer li') = Some name.
Proof.
  intros Hincr Hblen Hlen Hflen Hrs Has Hnamed Hoff Hname.
  apply cstring_Some in Hname as (rest & Hdrop & Hname).
  set (off := Z.to_nat (sh_offset + st_name sym)) in *.
  assert (off < length (image w))%nat as Hin.
  { destruct (decide (off < length (image w))%nat) as [|Hout]; [done|].
    rewrite drop_ge in Hdrop by lia. by destruct name. }
  assert (image w = take off (image w) ++ name ++ NUL :: rest) as Himg.
  { by rewrite <- Hdrop, take_drop. }
  unfold modlib_symname. rewrite bool_decide_eq_false_2 by done.
  replace (sh_offset + st_name sym)
    with (Z.of_nat (length (take off (image w)) + 0)).
  2:{ rewrite length_take. lia. }
  apply (symname_loop_reads (take off (image w)) name rest
           (Z.to_nat (CONFIG_MODLIB_BUFFERINCR cfg))); try done; try lia.
  unfold symname_fuel. rewrite Hflen. rewrite Himg at 1.
    rewrite !length_app, length_take. simpl. lia.
Qed.



End NameReaderRuns.

(** ** Lookups read memory and nothing else *)

Lemma load_entry_pure p i w e w' :
  load_entry p i w = Done e w' →
  w' = w ∧ ∀ v, mem v = mem w → load_entry p i v = Done e v.
Proof.
  unfold load_entry. intros H.
  split; [by repeat case_match; simplify_eq|].
  intros v ->. by repeat case_match; simplify_eq.
Qed.

Lemma load_string_pure p w s w' :
  load_string p w = Done s w' →
  w' = w ∧ ∀ v, mem v = mem w → load_string p v = Done s v.
Proof.
  unfold load_string. intros H.
  split; [by repeat case_match; simplify_eq|].
  intros v ->. by repeat case_match; simplify_eq.
Qed.

Lemma findbyname_from_pure symtab name n : ∀ i w r w',
  findbyname_from symtab name i n w = Done r w' →
  w' = w ∧ ∀ v, mem v = mem w → findbyname_from symtab name i n v = Done r v.
Proof.
  induction n as [|n IH]; intros i w r w' H; simpl in H.
  - step H. split; [done|]. by intros v _.
  - step H. apply load_entry_pure in Hrun as [-> He].
    step H. apply load_string_pure in Hrun as [-> Hs].
    destruct (cstring name) as [key|] eqn:Hkey; [|step H].
    case_bool_decide as Heq.
    + step H. split; [done|]. intros v Hv. simpl. unfold bind.
      rewrite (He v Hv), (Hs v Hv), Hkey. by rewrite bool_decide_eq_true_2.
    + apply IH in H as [-> Hrest]. split; [done|]. intros v Hv. simpl.
      unfold bind. rewrite (He v Hv), (Hs v Hv), Hkey.
      rewrite bool_decide_eq_false_2 by done. by apply Hrest.
Qed.

Lemma symtab_findbyname_pure symtab name nsyms w r w' :
  symtab_findbyname symtab name nsyms w = Done r w' →
  w' = w
  ∧ ∀ v, mem v = mem w → symtab_findbyname symtab name nsyms v = Done r v.
Proof.
  unfold symtab_findbyname. case_bool_decide as Hnull.
  - intros H. step H. split; [done|]. by intros v _.
  - apply findbyname_from_pure.
Qed.

(** ** The search through the installed modules *)

Lemma findbyname_from_key symtab name name' n :
  cstring name = cstring name' →
  ∀ i w, findbyname_from symtab name i n w = findbyname_from symtab name' i n w.
Proof.
  intros Hkey. induction n as [|n IH]; intros i w; [done|].
  cbn [findbyname_from]. unfold bind.
  destruct (load_entry symtab i w) as [e w1| |]; [|done|done].
  destruct (load_string (sym_name e) w1) as [s w2| |]; [|done|done].
  rewrite Hkey. destruct (cstring name'); [|done].
  destruct (bool_decide (s = l)); [done | apply IH].
Qed.

Lemma symtab_findbyname_key symtab name name' nsyms w :
  cstring name = cstring name' →
  symtab_findbyname symtab name nsyms w = symtab_findbyname symtab name' nsyms w.
Proof.
  intros Hkey. unfold symtab_findbyname.
  destruct (bool_decide (symtab = NULL)); [done|].
  by apply findbyname_from_key.
Qed.

Lemma modlib_depend_modules importer exporter w r w' :
  modlib_depend importer exporter w = Done r w' → same_modules w w'.
Proof.
  unfold modlib_depend. intros H.
  repeat (case_match || case_bool_decide); simplify_eq; by repeat split.
Qed.

Lemma registry_walk_same name name' modp mods : ∀ w v r ei w1 r' ei' v1,
  cstring name = cstring name' → mem v = mem w →
  registry_walk modlib_symcallback mods (mkExportinfo name modp None) w
  = Done (r, ei) w1 →
  registry_walk modlib_symcallback mods (mkExportinfo name' modp None) v
  = Done (r', ei') v1 →
  0 ≤ r → 0 ≤ r' →
  ei_symbol ei = ei_symbol ei' ∧ ei_name ei = name ∧ ei_name ei' = name'
  ∧ same_modules w w1 ∧ same_modules v v1.
Proof.
  induction mods as [|m mods IH]; intros w v r ei w1 r' ei' v1 Hkey Hmem H1 H2 Hr Hr'.
  { cbn in H1, H2. step H1. step H2. by repeat split. }
  cbn [registry_walk] in H1, H2.
  step H1. destruct a as [r0 ei0]. step H2. destruct a as [r0' ei0'].
  unfold modlib_symcallback in Hrun, Hrun0. cbn in Hrun, Hrun0.
  step Hrun. step Hrun0.
  apply symtab_findbyname_pure in Hrun1 as [-> Hpure].
  specialize (Hpure v Hmem).
  rewrite (symtab_findbyname_key _ _ name') in Hpure by done.
  rewrite Hpure in Hrun2. step Hrun2.
  destruct a0 as [e|].
  - step Hrun. step Hrun0.
    apply modlib_depend_modules in Hrun1, Hrun2.
    destruct (bool_decide_reflect (a < 0)), (bool_decide_reflect (a0 < 0));
      step Hrun; step Hrun0;
      try (rewrite bool_decide_eq_false_2 in H1 by lia; step H1; lia);
      try (rewrite bool_decide_eq_false_2 in H2 by lia; step H2; lia).
    unfold SYM_FOUND in *.
    rewrite bool_decide_eq_false_2 in H1, H2 by lia. step H1. by step H2.
  - step Hrun. step Hrun0. cbn in H1, H2.
    by apply (IH _ _ _ _ _ _ _ _ Hkey Hmem H1 H2).
Qed.

Lemma registry_walk_skip name modp newer : ∀ rest w,
  Forall (λ m, module_lookup m name w = Done None w) newer →
  registry_walk modlib_symcallback (newer ++ rest)
    (mkExportinfo name modp None) w
  = registry_walk modlib_symcallback rest (mkExportinfo name modp None) w.
Proof.
  induction newer as [|m newer IH]; intros rest w Hall; [done|].
  apply Forall_cons in Hall as [Hm Hall]. simpl.
  unfold bind at 1. unfold modlib_symcallback at 1. unfold bind at 1.
  unfold module_lookup in Hm. simpl. rewrite Hm. simpl.
  by apply IH.
Qed.

Lemma registry_walk_none name modp mods w :
  Forall (λ m, module_lookup m name w = Done None w) mods →
  registry_walk modlib_symcallback mods (mkExportinfo name modp None) w
  = Done (OK, mkExportinfo name modp None) w.
Proof.
  intros Hall. rewrite <- (app_nil_r mods).
  by rewrite registry_walk_skip.
Qed.

Lemma registry_walk_hit name modp m rest e w :
  module_lookup m name w = Done (Some e) w →
  depend_goes_through w →
  registry_walk modlib_symcallback (m :: rest) (mkExportinfo name modp None) w
  = Done (SYM_FOUND, mkExportinfo name modp (Some e))
      (set_edges (edges w ++ [(modaddr modp, modaddr m)])
         (set_depend_script (tail (depend_script w)) w)).
Proof.
  intros Hm Hdep. simpl.
  unfold bind at 1. unfold modlib_symcallback at 1. unfold bind at 1.
  unfold module_lookup in Hm. simpl. rewrite Hm. simpl.
  unfold bind, modlib_depend, depend_goes_through in *.
  destruct (depend_script w) as [|k ks]; simpl; [done|].
  rewrite bool_decide_eq_false_2 by lia. done.
Qed.

(** ** The symbol value resolver *)

Section Resolver.

Context (cfg : config).

Lemma lookup_transport symtab name nsyms w r v :
  symtab_findbyname symtab name nsyms w = Done r w →
  same_store w v →
  symtab_findbyname symtab name nsyms v = Done r v.
Proof.
  intros H (_ & Hmem & _). by apply (symtab_findbyname_pure _ _ _ _ _ _ H).
Qed.

(** The SHN_UNDEF case when the first module that exports the name, in the
    order of the registry, is [winner]. *)
Lemma symvalue_undef_module modp li sym w newer winner older e :
  g_mod_registry w = newer ++ winner :: older →
  Forall (λ m, module_lookup m (iobuffer li) w = Done None w) newer →
  module_lookup winner (iobuffer li) w = Done (Some e) w →
  depend_goes_through w →
  symvalue_undef cfg modp li sym w
  = Done (OK, li, set_st_value (uintptr cfg (st_value sym + sym_value e)) sym)
      (set_edges (edges w ++ [(modaddr modp, modaddr winner)])
         (set_depend_script (tail (depend_script w)) w)).
Proof.
  intros Hreg Hnewer Hwin Hdep. unfold symvalue_undef.
  unfold bind at 1. unfold modlib_registry_foreach, bind at 1, get_world.
  rewrite Hreg, registry_walk_skip by done.
  by rewrite (registry_walk_hit _ _ _ _ e).
Qed.

(** The SHN_UNDEF case when no installed module exports the name. *)
Lemma symvalue_undef_builtin modp li sym w found :
  Forall (λ m, module_lookup m (iobuffer li) w = Done None w)
    (g_mod_registry w) →
  symtab_findbyname (g_modlib_symtab w) (iobuffer li) (g_modlib_nsymbols w) w
  = Done found w →
  symvalue_undef cfg modp li sym w
  = Done (match found with
          | Some e =>
              (OK, li, set_st_value (uintptr cfg (st_value sym + sym_value e)) sym)
          | None => (- ENOENT, li, sym)
          end) w.
Proof.
  intros Hnone Hbuiltin. unfold symvalue_undef.
  unfold bind at 1. unfold modlib_registry_foreach, bind at 1, get_world.
  rewrite registry_walk_none by done. simpl.
  unfold bind, modlib_getsymtab, bind, get_world, ret. rewrite Hbuiltin.
  by destruct found.
Qed.

(** Resolution looks at the name in the buffer, the memory, the registry and
    the table of the base code, and at nothing else: two successful
    resolutions of a symbol that agree on these give the same value. *)
Theorem resolution_depends_on_name modp li li' sym w v l1 s1 w1 l2 s2 v1 :
  cstring (iobuffer li) = cstring (iobuffer li') →
  same_modules w v →
  symvalue_undef cfg modp li sym w = Done (OK, l1, s1) w1 →
  symvalue_undef cfg modp li' sym v = Done (OK, l2, s2) v1 →
  s1 = s2.
Proof.
  intros Hkey (Hmem & Hreg & Htab & Hn) H1 H2.
  unfold symvalue_undef, modlib_registry_foreach in H1, H2.
  step H1. destruct a as [r ei]. step Hrun. unfold get_world in Hrun0.
  step Hrun0.
  step H2. destruct a as [r' ei']. step Hrun0. unfold get_world in Hrun1.
  step Hrun1. rewrite Hreg in Hrun0.
  destruct (bool_decide_reflect (r < 0)); [step H1; unfold OK in *; lia|].
  destruct (bool_decide_reflect (r' < 0)); [step H2; unfold OK in *; lia|].
  destruct (registry_walk_same _ _ _ _ _ _ _ _ _ _ _ _ Hkey Hmem Hrun Hrun0)
    as (Hsym & Hname & Hname' & Hw & Hv); [lia | lia |].
  step H1. step H2. rewrite <- Hsym in Hrun2.
  destruct (ei_symbol ei) as [e|].
  - step Hrun1. step Hrun2. step H1. by step H2.
  - unfold modlib_getsymtab, get_world in Hrun1, Hrun2.
    step Hrun1. step Hrun3. step Hrun3. step Hrun2. step Hrun3. step Hrun3.
    apply symtab_findbyname_pure in Hrun1 as [-> Hpure].
    destruct Hw as (Hw1 & _ & Hw2 & Hw3), Hv as (Hv1 & _ & Hv2 & Hv3).
    match type of Hrun2 with
    | symtab_findbyname _ _ _ ?x = _ => specialize (Hpure x)
    end.
    rewrite Hname, Hname' in *.
    rewrite (symtab_findbyname_key _ _ (iobuffer li')) in Hpure by done.
    rewrite Hw2, Hw3, <- Htab, <- Hn, <- Hv2, <- Hv3 in Hpure.
    rewrite Hpure in Hrun2 by congruence. step Hrun2.
    destruct a0; step H1; by step H2.
Qed.
(** The precedence of the newest exporter, for the string that is in the
    buffer.  Take an undefined symbol whose name has been read into the
    buffer, and let [winner] be the first module of the registry (newest
    first) that exports the string in the buffer: the modules [newer]
    before it do not, the modules [older] after it may or may not.  Then
    modlib_symvalue succeeds, adds the value of [winner]'s export to the
    value of the symbol, and the only dependency it records is the one from
    the resolving module to [winner].  Whether the string in the buffer is
    the name that the symbol has in the file is another matter: it is not
    for a name longer than a buffer that has grown. *)
Theorem newest_exporter_wins modp li sym sh_offset w li1 w1
    newer winner older e :
  st_shndx sym = SHN_UNDEF →
  modlib_symname cfg li sym sh_offset w = Done (OK, li1) w1 →
  g_mod_registry w = newer ++ winner :: older →
  Forall (λ m, module_lookup m (iobuffer li1) w = Done None w) newer →
  module_lookup winner (iobuffer li1) w = Done (Some e) w →
  depend_goes_through w →
  ∃ w',
    modlib_symvalue cfg modp li sym sh_offset w
    = Done (OK, li1, set_st_value (uintptr cfg (st_value sym + sym_value e)) sym) w'
    ∧ edges w' = edges w ++ [(modaddr modp, modaddr winner)].
Proof.
  intros Hund Hname Hreg Hnewer Hwin Hdep.
  destruct (modlib_symname_store _ _ _ _ _ _ _ _ Hname)
    as (Hstore & _).
  pose proof Hstore as (_ & _ & _ & Hreg1 & _ & _ & Hedges & Hscript).
  eexists. split.
  - unfold modlib_symvalue. rewrite Hund. simpl.
    unfold bind at 1. rewrite Hname. simpl.
    apply symvalue_undef_module with (newer := newer) (older := older).
    + by rewrite Hreg1.
    + eapply Forall_impl; [exact Hnewer|]. intros m Hm.
      by apply (lookup_transport _ _ _ w).
    + by apply (lookup_transport _ _ _ w).
    + unfold depend_goes_through in *. by rewrite Hscript.
  - simpl. by rewrite Hedges.
Qed.

(** The fallback to the base code, for the string that is in the buffer.
    Take an undefined symbol whose name has been read into the buffer, the
    string in the buffer being exported by no installed module.  If the
    export table of the base code holds that string, modlib_symvalue
    succeeds and adds the value found there to the value of the symbol; if
    it does not, modlib_symvalue fails with ENOENT and leaves the symbol as
    it was.  No dependency is recorded in either case.  Whether the string
    in the buffer is the name that the symbol has in the file is another
    matter: it is not for a name longer than a buffer that has grown. *)
Theorem builtin_fallback modp li sym sh_offset w li1 w1 found :
  st_shndx sym = SHN_UNDEF →
  modlib_symname cfg li sym sh_offset w = Done (OK, li1) w1 →
  Forall (λ m, module_lookup m (iobuffer li1) w = Done None w)
    (g_mod_registry w) →
  symtab_findbyname (g_modlib_symtab w) (iobuffer li1) (g_modlib_nsymbols w) w
  = Done found w →
  modlib_symvalue cfg modp li sym sh_offset w
  = Done (match found with
          | Some e =>
              (OK, li1, set_st_value (uintptr cfg (st_value sym + sym_value e)) sym)
          | None => (- ENOENT, li1, sym)
          end) w1
  ∧ edges w1 = edges w.
Proof.
  intros Hund Hname Hnone Hbuiltin.
  destruct (modlib_symname_store _ _ _ _ _ _ _ _ Hname)
    as (Hstore & _).
  pose proof Hstore as (_ & _ & _ & Hreg1 & Htab & Hn & Hedges & _).
  split; [|done].
  unfold modlib_symvalue. rewrite Hund. simpl.
  unfold bind at 1. rewrite Hname. simpl.
  apply symvalue_undef_builtin.
  - rewrite Hreg1. eapply Forall_impl; [exact Hnone|]. intros m Hm.
    by apply (lookup_transport _ _ _ w).
  - rewrite Htab, Hn. by apply (lookup_transport _ _ _ w).
Qed.

(** C9.  For a symbol whose section index is none of SHN_UNDEF, SHN_ABS and
    SHN_COMMON, modlib_symvalue reads the section header at that index
    without a check: when the index is below the number of section headers
    the call succeeds and adds the address of that section to the value of
    the symbol, and when it is not the read is outside the array. *)
Theorem section_index_unchecked modp li sym sh_offset w :
  st_shndx sym ≠ SHN_UNDEF → st_shndx sym ≠ SHN_ABS →
  st_shndx sym ≠ SHN_COMMON →
  (0 ≤ st_shndx sym < Z.of_nat (length (shdr li)) →
   ∃ sec, index (shdr li) (st_shndx sym) = Some sec
     ∧ modlib_symvalue cfg modp li sym sh_offset w
       = Done (OK, li, set_st_value (uintptr cfg (st_value sym + sh_addr sec)) sym) w)
  ∧ (¬ (0 ≤ st_shndx sym < Z.of_nat (length (shdr li))) →
     modlib_symvalue cfg modp li sym sh_offset w = Fault OutOfBounds).
Proof.
  intros Hu Ha Hc. unfold modlib_symvalue.
  rewrite !bool_decide_eq_false_2 by done. unfold index. split.
  - intros [Hlo Hhi]. rewrite bool_decide_eq_true_2 by done.
    destruct (lookup_lt_is_Some_2 (shdr li) (Z.to_nat (st_shndx sym)))
      as [sec Hsec]; [lia|].
    exists sec. by rewrite Hsec.
  - intros Hout. case_bool_decide as Hlo; [|done].
    rewrite lookup_ge_None_2; [done | lia].
Qed.

(** C10.  When modlib_symvalue returns an error, the symbol entry it was
    given is unchanged. *)
Theorem symvalue_error_keeps_symbol modp li sym sh_offset w r li' sym' w' :
  modlib_symvalue cfg modp li sym sh_offset w = Done (r, li', sym') w' →
  r < 0 →
  sym' = sym.
Proof.
  unfold modlib_symvalue, OK. intros H Hr.
  case_bool_decide; [by step H|].
  case_bool_decide; [by step H|].
  case_bool_decide.
  - step H. destruct a as [r0 li0].
    case_bool_decide; [by step H|].
    unfold symvalue_undef in H. step H. destruct a as [r1 ei].
    case_bool_decide; [by step H|].
    step H. by destruct a as [e|]; step H.
  - destruct (index _ _); step H.
Qed.

End Resolver.

(** ** The indexed symbol reader *)

Section SymbolReader.

Context (cfg : config).

(** The guard of modlib_readsym rejects a negative index and an index above
    the number of entries of the section. *)
Lemma readsym_rejects li index sym symtab w :
  index < 0 ∨ index > Z.quot (sh_size symtab) (sizeof_Elf_Sym cfg) →
  modlib_readsym cfg li index sym symtab w = Done (- EINVAL, sym) w.
Proof.
  intros Hbad. unfold modlib_readsym.
  destruct Hbad as [Hneg|Hbig].
  - by rewrite bool_decide_eq_true_2.
  - rewrite (bool_decide_eq_true_2 (index > _)) by done.
    by rewrite orb_true_r.
Qed.



End SymbolReader.

(** ** Export tables *)

Section ExportTable.

Context (cfg : config).

(** Teardown of a module without an export table does nothing. *)
Lemma freesymtab_null m w :
  exports m = NULL → modlib_freesymtab m w = Done tt w.
Proof.
  intros Hnull. unfold modlib_freesymtab.
  by rewrite bool_decide_eq_false_2 by (intros Hne; by apply Hne).
Qed.

Lemma count_live_none sym n : ∀ i count w,
  (∀ k, i ≤ k < i + Z.of_nat n → ∃ s, index sym k = Some s ∧ st_name s = 0) →
  count_live sym i n count w = Done count w.
Proof.
  induction n as [|n IH]; intros i count w Hall; [done|]. simpl.
  destruct (Hall i) as (s & -> & Hs); [lia|].
  rewrite bool_decide_eq_false_2 by (intros Hne; by apply Hne).
  apply IH. intros k Hk. apply Hall. lia.
Qed.

(** C7, as the code has it.  When none of the entries of the section has a
    name and the module has no export table yet, modlib_insertsymtab returns
    0 and allocates nothing: the module, the session and the world are as
    they were, and the reference of the module to its export table is still
    NULL. *)
Theorem insertsymtab_no_live_symbols modp li shdr0 sym w :
  exports modp = NULL →
  (∀ k, 0 ≤ k < Z.quot (sh_size shdr0) (sizeof_Elf_Sym cfg) →
        ∃ s, index sym k = Some s ∧ st_name s = 0) →
  modlib_insertsymtab cfg modp li shdr0 sym w = Done (0, modp, li) w.
Proof.
  intros Hnull Hall. unfold modlib_insertsymtab.
  rewrite bool_decide_eq_false_2 by (intros Hne; by apply Hne).
  unfold bind at 1. simpl. unfold bind.
  rewrite count_live_none; [done|].
  intros k Hk. apply Hall. lia.
Qed.

End ExportTable.

(** ** The resolver on the concrete session *)

(** "foo" resolves to the export of [modB], the newer of the two modules
    that export it, and the only edge recorded goes from [modC] to
    [modB]. *)
Lemma newest_exporter_wins_witness :
  ∃ w',
    modlib_symvalue (elf32 32) modC li_fresh (undefined 1 4) 0 w_loaded
    = Done (OK, set_iobuffer (buffer_at 1) li_fresh,
            set_st_value 0x2004 (undefined 1 4)) w'
    ∧ edges w' = [(3, 2)].
Proof.
  apply (newest_exporter_wins (elf32 32) modC li_fresh (undefined 1 4) 0
           w_loaded (set_iobuffer (buffer_at 1) li_fresh) w_loaded
           [modD] modB [modA] (mkSymtab 20 0x2000)).
  - reflexivity.
  - vm_compute. reflexivity.
  - reflexivity.
  - constructor; [vm_compute; reflexivity | constructor].
  - vm_compute. reflexivity.
  - exact I.
Defined.

(** "bar" is exported by the base code only. *)
Lemma builtin_fallback_witness :
  modlib_symvalue (elf32 32) modC li_fresh (undefined 5 4) 0 w_loaded
  = Done (OK, set_iobuffer (buffer_at 5) li_fresh,
          set_st_value 0x3004 (undefined 5 4)) w_loaded
  ∧ edges w_loaded = [].
Proof.
  apply (builtin_fallback (elf32 32) modC li_fresh (undefined 5 4) 0
           w_loaded (set_iobuffer (buffer_at 5) li_fresh) w_loaded
           (Some (mkSymtab 30 0x3000))).
  - reflexivity.
  - vm_compute. reflexivity.
  - repeat (constructor; [vm_compute; reflexivity|]). constructor.
  - vm_compute. reflexivity.
Defined.

(** "baz" is exported by nobody: ENOENT, the symbol and the edges as they
    were. *)
Example unresolved_external :
  modlib_symvalue (elf32 32) modC li_fresh (undefined 9 4) 0 w_loaded
  = Done (- ENOENT, set_iobuffer (buffer_at 9) li_fresh, undefined 9 4)
      w_loaded.
Proof. vm_compute. reflexivity. Qed.

(** A failure of the dependency registration, and a failure of the read,
    come back as they are, with the symbol untouched and no edge. *)
Example dependency_failure_propagates :
  modlib_symvalue (elf32 32) modC li_fresh (undefined 1 4) 0
    (set_depend_script [- ENOMEM] w_loaded)
  = Done (- ENOMEM, set_iobuffer (buffer_at 1) li_fresh, undefined 1 4)
      w_loaded.
Proof. vm_compute. reflexivity. Qed.

Example read_failure_propagates :
  modlib_symvalue (elf32 32) modC li_fresh (undefined 1 4) 0
    (set_read_script [-5] w_loaded)
  = Done (-5, li_fresh, undefined 1 4) w_loaded.
Proof. vm_compute. reflexivity. Qed.

(** Section 1 is there, section 2 is not. *)
Lemma section_index_unchecked_witness :
  (0 ≤ 1 < Z.of_nat (length (shdr li_fresh)) →
   ∃ sec, index (shdr li_fresh) 1 = Some sec
     ∧ modlib_symvalue (elf32 32) modC li_fresh (mkSym 9 4 0 0 0 1) 0 w_loaded
       = Done (OK, li_fresh,
               set_st_value (uintptr (elf32 32) (4 + sh_addr sec))
                 (mkSym 9 4 0 0 0 1)) w_loaded)
  ∧ (¬ (0 ≤ 1 < Z.of_nat (length (shdr li_fresh))) →
     modlib_symvalue (elf32 32) modC li_fresh (mkSym 9 4 0 0 0 1) 0 w_loaded
     = Fault OutOfBounds).
Proof.
  apply (section_index_unchecked (elf32 32) modC li_fresh (mkSym 9 4 0 0 0 1)
           0 w_loaded); unfold SHN_UNDEF, SHN_ABS, SHN_COMMON; simpl; lia.
Defined.

Example section_index_past_the_headers :
  modlib_symvalue (elf32 32) modC li_fresh (mkSym 9 4 0 0 0 2) 0 w_loaded
  = Fault OutOfBounds.
Proof. reflexivity. Qed.

(** The unresolved "baz" comes back as it went in. *)
Lemma symvalue_error_keeps_symbol_witness :
  modlib_symvalue (elf32 32) modC li_fresh (undefined 9 4) 0 w_loaded
  = Done (- ENOENT, set_iobuffer (buffer_at 9) li_fresh, undefined 9 4) w_loaded
  ∧ undefined 9 4 = undefined 9 4.
Proof.
  split; [vm_compute; reflexivity|].
  apply (symvalue_error_keeps_symbol (elf32 32) modC li_fresh (undefined 9 4)
           0 w_loaded (- ENOENT) (set_iobuffer (buffer_at 9) li_fresh)
           (undefined 9 4) w_loaded).
  - vm_compute. reflexivity.
  - unfold ENOENT. lia.
Defined.

(** ** The reader at the end of the symbol table *)

Example readsym_entry_0 :
  modlib_readsym (elf32 32) li_object 0 foo_sym symtab_hdr w_object
  = Done (OK, null_sym) w_object.
Proof. vm_compute. reflexivity. Qed.

Example readsym_entry_1 :
  modlib_readsym (elf32 32) li_object 1 null_sym symtab_hdr w_object
  = Done (OK, foo_sym) w_object.
Proof. vm_compute. reflexivity. Qed.

Example readsym_index_3 :
  modlib_readsym (elf32 32) li_object 3 null_sym symtab_hdr w_object
  = Done (- EINVAL, null_sym) w_object.
Proof. vm_compute. reflexivity. Qed.

Example readsym_index_negative :
  modlib_readsym (elf32 32) li_object (-1) null_sym symtab_hdr w_object
  = Done (- EINVAL, null_sym) w_object.
Proof. vm_compute. reflexivity. Qed.

(** C1, where the code departs from it.  The section has two entries, and
    index 2 is not refused: the call returns OK and hands back, as a symbol,
    the sixteen bytes that follow the table, here the string table. *)
Theorem readsym_accepts_entry_count :
  Z.quot (sh_size symtab_hdr) (sizeof_Elf_Sym (elf32 32)) = 2
  ∧ modlib_readsym (elf32 32) li_object 2 null_sym symtab_hdr w_object
    = Done (OK, decode_Elf32_Sym (strtab ++ zeros 3)) w_object
  ∧ modlib_readsym (elf32 32) li_object 2 null_sym symtab_hdr w_object
    ≠ Done (- EINVAL, null_sym) w_object.
Proof.
  split; [reflexivity|]. split; [vm_compute; reflexivity|].
  vm_compute. discriminate.
Qed.

(** ** Teardown *)

(** C2, where the code departs from it.  Teardown of [modA] frees its name
    and its array, and the module still refers to the freed array, since
    the function writes nothing to the module; a second teardown reads the
    freed array. *)
Theorem freesymtab_keeps_reference :
  ∃ w',
    modlib_freesymtab modA w_loaded = Done tt w'
    ∧ mem w' !! 10 = None ∧ mem w' !! 11 = None
    ∧ exports modA = 11
    ∧ modlib_freesymtab modA w' = Fault BadPointer.
Proof.
  eexists. split; [vm_compute; reflexivity|].
  repeat split; vm_compute; reflexivity.
Qed.

(** The same through modlib_insertsymtab: a rebuild from a section without
    named symbols tears the old table down, returns 0 and leaves the module
    with the address of the freed array and the old count. *)
Example rebuild_without_symbols_keeps_reference :
  ∃ w',
    modlib_insertsymtab (elf32 32) modA li_fresh (mkShdr 2 0 0 32 1)
      [null_sym; null_sym] w_loaded
    = Done (0, modA, li_fresh) w'
    ∧ mem w' !! exports modA = None.
Proof. eexists. split; vm_compute; reflexivity. Qed.

(** ** Building the export table *)

Example insertsymtab_builds :
  ∃ li' w',
    modlib_insertsymtab (elf32 32) modC li_fresh three_syms named_syms w_fresh
    = Done (0, mkModule 3 100 2, li') w'
    ∧ mem w' !! 100 = Some (OTab [Some (mkSymtab 101 0x10);
                                  Some (mkSymtab 102 0x20)])
    ∧ mem w' !! 101 = Some (OStr (bytes "foo"))
    ∧ mem w' !! 102 = Some (OStr (bytes "bar")).
Proof. eexists _, _. split; [|repeat split]; vm_compute; reflexivity. Qed.

Example insertsymtab_no_array :
  modlib_insertsymtab (elf32 32) modC li_fresh three_syms named_syms
    (set_alloc_script [false] w_fresh)
  = Done (- ENOMEM, modC, li_fresh) w_fresh.
Proof. vm_compute. reflexivity. Qed.

(** C6, where the code departs from it.  First, the name of the second
    exported symbol cannot be read: the call fails with EINVAL and detaches
    the array after freeing it, but the copy of the first name stays
    allocated with nothing referring to it, and the session still holds the
    address of the freed array.  Second, the duplication of the first name
    fails: the call goes on and returns 0, with a table whose first entry
    has no name. *)
Theorem insertsymtab_failure_paths :
  (∃ li' w',
     modlib_insertsymtab (elf32 32) modC li_fresh three_syms broken_syms w_fresh
     = Done (- EINVAL, mkModule 3 NULL 2, li') w'
     ∧ mem w' !! 100 = None
     ∧ mem w' !! 101 = Some (OStr (bytes "foo"))
     ∧ exported li' = 100)
  ∧ (∃ li' w',
       modlib_insertsymtab (elf32 32) modC li_fresh three_syms named_syms
         (set_alloc_script [true; false] w_fresh)
       = Done (0, mkModule 3 100 2, li') w'
       ∧ mem w' !! 100 = Some (OTab [Some (mkSymtab NULL 0x10);
                                     Some (mkSymtab 101 0x20)])).
Proof.
  split; eexists _, _; (split; [|repeat split]); vm_compute; reflexivity.
Qed.

(** For a section of three unnamed symbols nothing is attached. *)
Lemma insertsymtab_attaches_nothing :
  modlib_insertsymtab (elf32 32) modC li_fresh three_syms unnamed_syms w_fresh
  = Done (0, modC, li_fresh) w_fresh
  ∧ exports modC = NULL
  ∧ ¬ attaches_empty_table
        (modlib_insertsymtab (elf32 32) modC li_fresh three_syms unnamed_syms
           w_fresh).
Proof.
  split; [vm_compute; reflexivity|]. split; [reflexivity|].
  intros (modp' & li' & w' & Hrun & Hattached & _).
  vm_compute in Hrun. by simplify_eq.
Qed.

Lemma insertsymtab_no_live_symbols_witness :
  modlib_insertsymtab (elf32 32) modC li_fresh three_syms unnamed_syms w_fresh
  = Done (0, modC, li_fresh) w_fresh.
Proof.
  apply (insertsymtab_no_live_symbols (elf32 32) modC li_fresh three_syms
           unnamed_syms w_fresh).
  - reflexivity.
  - intros k Hk. change (0 ≤ k < 3) in Hk. exists null_sym.
    assert (k = 0 ∨ k = 1 ∨ k = 2) as [->|[->| ->]] by lia; by split.
Defined.

(** ** Names longer than the buffer *)

(** With the initial capacity, equal to the increment, the name of 72 bytes
    is read as it is in the file. *)
Example symname_long_fresh :
  ∃ li',
    modlib_symname (elf32 32) li_long (undefined 1 0) 0 w_long
    = Done (OK, li') w_long
    ∧ cstring (iobuffer li') = Some long_name.
Proof.
  apply symname_contiguous; done.
Defined.

(** C5, where the code departs from it.  The buffer holds 64 bytes when the
    call starts and the increment is 32.  The first chunk is 64 bytes long,
    the file offset then advances by the increment, not by the length of the
    chunk, and the next chunk repeats bytes 32 to 63 of the name.  The call
    returns OK with a string that is not the name in the file. *)
Theorem symname_repeats_bytes :
  ∃ li' w',
    modlib_symname (elf32 32) li_grown (undefined 1 0) 0 w_long
    = Done (OK, li') w'
    ∧ cstring (drop 1 (image w_long)) = Some long_name
    ∧ cstring (iobuffer li') = Some (take 64 long_name ++ drop 32 long_name)
    ∧ cstring (iobuffer li') ≠ Some long_name.
Proof.
  eexists _, _. split; [vm_compute; reflexivity|].
  split; [vm_compute; reflexivity|]. split; [vm_compute; reflexivity|].
  vm_compute. discriminate.
Qed.

(** C8, where the code departs from it, by the defect of C5.  The same
    undefined symbol is resolved twice in a row, the second time in the
    session and the world that the first call left; the registry, the
    export tables and the table of the base code are the same for both.  The
    first call reads a wrong name and fails with ENOENT; it leaves a buffer
    of 128 bytes, in which the second call reads the name in one chunk and
    resolves it. *)
Theorem resolving_twice_differs :
  ∃ li1 w1 li2 w2,
    modlib_symvalue (elf32 32) modC li_grown (undefined 1 4) 0 w_long
    = Done (- ENOENT, li1, undefined 1 4) w1
    ∧ same_modules w_long w1
    ∧ modlib_symvalue (elf32 32) modC li1 (undefined 1 4) 0 w1
      = Done (OK, li2, set_st_value 0x5004 (undefined 1 4)) w2.
Proof.
  eexists _, _, _, _. split; [vm_compute; reflexivity|].
  repeat split; vm_compute; reflexivity.
Qed.

(** C3, where the code departs from it, by the defect of C5.  Two installed
    modules export the name that the undefined symbol has in the file, a
    name of 72 bytes, and the session has a buffer of 64 bytes.  The call
    reads a string that is not the name, finds it in neither module and
    fails with ENOENT; no dependency is recorded and the symbol is left as
    it was.  In a session whose buffer is as long as the increment the
    same call resolves the symbol from the newer module and records the
    dependency on it. *)
Theorem newest_exporter_missed :
  cstring (drop 1 (image w_rivals)) = Some long_name
  ∧ g_mod_registry w_rivals = [rival_new; rival_old]
  ∧ module_lookup rival_new (long_name ++ zeros 1) w_rivals
    = Done (Some (mkSymtab 70 0x7000)) w_rivals
  ∧ module_lookup rival_old (long_name ++ zeros 1) w_rivals
    = Done (Some (mkSymtab 60 0x6000)) w_rivals
  ∧ (∃ li1 w1,
       modlib_symvalue (elf32 32) modC li_grown (undefined 1 4) 0 w_rivals
       = Done (- ENOENT, li1, undefined 1 4) w1
       ∧ cstring (iobuffer li1) ≠ Some long_name
       ∧ edges w1 = [])
  ∧ (∃ li2 w2,
       modlib_symvalue (elf32 32) modC li_long (undefined 1 4) 0 w_rivals
       = Done (OK, li2, set_st_value 0x7004 (undefined 1 4)) w2
       ∧ cstring (iobuffer li2) = Some long_name
       ∧ edges w2 = [(modaddr modC, modaddr rival_new)]).
Proof.
  split; [vm_compute; reflexivity|]. split; [reflexivity|].
  split; [vm_compute; reflexivity|]. split; [vm_compute; reflexivity|].
  split.
  - eexists _, _. split; [vm_compute; reflexivity|].
    split; [vm_compute; discriminate | reflexivity].
  - eexists _, _. split; [vm_compute; reflexivity|].
    split; vm_compute; reflexivity.
Qed.

(** C4, where the code departs from it, by the defect of C5.  No module is
    installed and the table of the base code holds the name that the
    undefined symbol has in the file, a name of 72 bytes; the session has a
    buffer of 64 bytes.  The call reads a string that is not the name,
    does not find it in the table of the base code and fails with ENOENT.
    In a session whose buffer is as long as the increment the same call
    resolves the symbol from the table of the base code. *)
Theorem builtin_fallback_missed :
  cstring (drop 1 (image w_long)) = Some long_name
  ∧ g_mod_registry w_long = []
  ∧ symtab_findbyname (g_modlib_symtab w_long) (long_name ++ zeros 1)
      (g_modlib_nsymbols w_long) w_long
    = Done (Some (mkSymtab 50 0x5000)) w_long
  ∧ (∃ li1 w1,
       modlib_symvalue (elf32 32) modC li_grown (undefined 1 4) 0 w_long
       = Done (- ENOENT, li1, undefined 1 4) w1
       ∧ cstring (iobuffer li1) ≠ Some long_name
       ∧ edges w1 = [])
  ∧ (∃ li2 w2,
       modlib_symvalue (elf32 32) modC li_long (undefined 1 4) 0 w_long
       = Done (OK, li2, set_st_value 0x5004 (undefined 1 4)) w2
       ∧ cstring (iobuffer li2) = Some long_name
       ∧ edges w2 = []).
Proof.
  split; [vm_compute; reflexivity|]. split; [reflexivity|].
  split; [vm_compute; reflexivity|]. split.
  - eexists _, _. split; [vm_compute; reflexivity|].
    split; [vm_compute; discriminate | reflexivity].
  - eexists _, _. split; [vm_compute; reflexivity|].
    split; vm_compute; reflexivity.
Qed.

(** * Further properties *)

(** ** Locating the symbol table *)

(** The loop passes over sections that are not symbol tables and leaves the
    indices as they were. *)
Lemma findsymtab_scan_skip shdrs loc n : ∀ i w,
  (∀ k, i ≤ k < i + Z.of_nat n →
        ∃ s, index shdrs k = Some s ∧ sh_type s ≠ SHT_SYMTAB) →
  findsymtab_scan shdrs loc i n w = Done loc w.
Proof.
  induction n as [|n IH]; intros i w Hall; [done|]. cbn [findsymtab_scan].
  destruct (Hall i) as (s & -> & Hs); [lia|].
  rewrite bool_decide_eq_false_2 by done.
  apply IH. intros k Hk. apply Hall. lia.
Qed.

(** The loop stops at the first symbol table section, [k] sections from
    where it starts. *)
Lemma findsymtab_scan_hit shdrs loc sec (k : nat) : ∀ n i w,
  (k < n)%nat →
  (∀ j, i ≤ j < i + Z.of_nat k →
        ∃ s, index shdrs j = Some s ∧ sh_type s ≠ SHT_SYMTAB) →
  index shdrs (i + Z.of_nat k) = Some sec →
  sh_type sec = SHT_SYMTAB →
  findsymtab_scan shdrs loc i n w
  = Done (mkLocation (e_shnum loc) (i + Z.of_nat k) (sh_link sec)) w.
Proof.
  induction k as [|k IH]; intros n i w Hn Hbefore Hsec Htype;
    (destruct n as [|n]; [lia|]); cbn [findsymtab_scan].
  - rewrite Z.add_0_r in *. rewrite Hsec.
    by rewrite bool_decide_eq_true_2.
  - destruct (Hbefore i) as (s & -> & Hs); [lia|].
    rewrite bool_decide_eq_false_2 by done.
    replace (i + Z.of_nat (S k)) with (i + 1 + Z.of_nat k) in * by lia.
    apply IH; [lia | | done | done].
    intros j Hj. apply Hbefore. lia.
Qed.

(** modlib_findsymtab takes the first section of type SHT_SYMTAB from
    section 1 on: it records the index of that section, and the sh_link of
    that section as the index of the string table, and returns OK.  The
    sections behind it are not looked at. *)
Theorem findsymtab_first li loc w j sec :
  1 ≤ j < e_shnum loc →
  index (shdr li) j = Some sec → sh_type sec = SHT_SYMTAB →
  (∀ k, 1 ≤ k < j → ∃ s, index (shdr li) k = Some s ∧ sh_type s ≠ SHT_SYMTAB) →
  modlib_findsymtab li loc w
  = Done (OK, mkLocation (e_shnum loc) j (sh_link sec)) w.
Proof.
  intros Hj Hsec Htype Hbefore. unfold modlib_findsymtab, bind.
  rewrite (findsymtab_scan_hit _ _ sec (Z.to_nat (j - 1))).
  - replace (1 + Z.of_nat (Z.to_nat (j - 1))) with j by lia.
    cbn [symtabidx]. by rewrite bool_decide_eq_false_2 by lia.
  - lia.
  - intros k Hk. apply Hbefore. lia.
  - by replace (1 + Z.of_nat (Z.to_nat (j - 1))) with j by lia.
  - done.
Qed.

(** When no section from 1 to e_shnum - 1 is a symbol table,
    modlib_findsymtab changes neither index, and its result is decided by
    the symbol table index that the session had before the call: EINVAL
    when that was 0, OK when it was not. *)
Theorem findsymtab_none li loc w :
  (∀ k, 1 ≤ k < e_shnum loc →
        ∃ s, index (shdr li) k = Some s ∧ sh_type s ≠ SHT_SYMTAB) →
  modlib_findsymtab li loc w
  = Done (if bool_decide (symtabidx loc = 0) then - EINVAL else OK, loc) w.
Proof.
  intros Hall. unfold modlib_findsymtab, bind.
  rewrite findsymtab_scan_skip; [by case_bool_decide|].
  intros k Hk. apply Hall. lia.
Qed.

(** What the loop can return: the indices as they were, or those of a
    symbol table section that no symbol table section precedes. *)
Lemma findsymtab_scan_result shdrs loc n : ∀ i w loc' w',
  findsymtab_scan shdrs loc i n w = Done loc' w' →
  w' = w
  ∧ (loc' = loc
     ∨ ∃ sec, i ≤ symtabidx loc' < i + Z.of_nat n
         ∧ index shdrs (symtabidx loc') = Some sec
         ∧ sh_type sec = SHT_SYMTAB
         ∧ strtabidx loc' = sh_link sec
         ∧ e_shnum loc' = e_shnum loc
         ∧ ∀ k, i ≤ k < symtabidx loc' →
                ∃ s, index shdrs k = Some s ∧ sh_type s ≠ SHT_SYMTAB).
Proof.
  induction n as [|n IH]; intros i w loc' w' H; cbn [findsymtab_scan] in H.
  - step H. auto.
  - destruct (index shdrs i) as [sec|] eqn:Hsec; [|step H].
    case_bool_decide as Htype.
    + step H. split; [done|]. right. exists sec. cbn.
      repeat split; try done; try lia.
    + apply IH in H as [-> [->|(sec' & Hidx & Hsec' & Htype' & Hlink & Hnum & Hbefore)]];
        (split; [done|]); [by left|].
      right. exists sec'. repeat split; try done; try lia.
      intros k Hk. destruct (decide (k = i)) as [->|]; [eauto|].
      apply Hbefore. lia.
Qed.

(** In a session whose symbol table index is 0 before the call, an OK of
    modlib_findsymtab is backed by the section headers: the recorded index
    lies between 1 and e_shnum - 1, the section there is of type
    SHT_SYMTAB, no section before it from 1 on is, and the string table
    index is the sh_link of that section. *)
Theorem findsymtab_sound li loc w r loc' w' :
  symtabidx loc = 0 →
  modlib_findsymtab li loc w = Done (r, loc') w' →
  r = OK →
  ∃ sec, 1 ≤ symtabidx loc' < e_shnum loc
    ∧ index (shdr li) (symtabidx loc') = Some sec
    ∧ sh_type sec = SHT_SYMTAB
    ∧ strtabidx loc' = sh_link sec
    ∧ (∀ k, 1 ≤ k < symtabidx loc' →
            ∃ s, index (shdr li) k = Some s ∧ sh_type s ≠ SHT_SYMTAB).
Proof.
  intros Hzero H ->. unfold modlib_findsymtab in H. step H.
  apply findsymtab_scan_result in Hrun
    as [-> [->|(sec & Hidx & Hsec & Htype & Hlink & _ & Hbefore)]].
  - rewrite bool_decide_eq_true_2 in H by done. step H.
  - case_bool_decide; step H. exists sec. repeat split; try done; lia.
Qed.

(** ** More on the name reader *)

(** Storing into the buffer keeps its length. *)
Lemma store_bytes_length buf pos bs buf' :
  store_bytes buf pos bs = Some buf' → length buf' = length buf.
Proof.
  unfold store_bytes. case_bool_decide as Hfit; [|done]. intros H.
  simplify_eq. rewrite !length_app, length_take, length_drop. lia.
Qed.

(** A terminator found in a part of the buffer is in the buffer. *)
Lemma memchr_nul_elem buf pos n : memchr_nul buf pos n = true → NUL ∈ buf.
Proof.
  unfold memchr_nul. intros H. apply existsb_exists in H as (c & Hin & Hc).
  apply bool_decide_eq_true in Hc as ->. apply list_elem_of_In in Hin.
  by eapply subseteq_drop, subseteq_take.
Qed.

(** A buffer with a terminator holds a string. *)
Lemma cstring_terminated buf : NUL ∈ buf → ∃ name, cstring buf = Some name.
Proof.
  intros Hin. destruct (cstring buf) as [name|] eqn:Hc; [eauto|].
  apply cstring_None in Hc. unfold no_nul in Hc.
  rewrite Forall_forall in Hc. by destruct (Hc NUL Hin).
Qed.

Section NameReaderMore.

Context (cfg : config).

(** The loop returns OK only after it has found a terminator. *)
Lemma symname_loop_ok fuel : ∀ li offset bytesread w li' w',
  symname_loop cfg fuel li offset bytesread w = Done (OK, li') w' →
  ∃ name, cstring (iobuffer li') = Some name.
Proof.
  induction fuel as [|fuel IH]; intros li offset bytesread w li' w' H;
    [done|].
  cbn [symname_loop] in H.
  destruct (_ && _); [step H|].
  step H. destruct a as [r bs].
  destruct (bool_decide_reflect (r < 0)); [step H; unfold OK in *; lia|].
  destruct (store_bytes _ _ _) as [buf|]; [|step H].
  destruct (memchr_nul _ _ _) eqn:Hnul.
  - step H. by eapply cstring_terminated, memchr_nul_elem.
  - step H. destruct a as [r1 li1].
    destruct (bool_decide_reflect (r1 < 0)); [step H; unfold OK in *; lia|].
    by eapply IH.
Qed.

(** When modlib_symname returns OK, the symbol has a name and the buffer
    of the session holds a terminated string. *)
Theorem symname_ok_terminated li sym sh_offset w li' w' :
  modlib_symname cfg li sym sh_offset w = Done (OK, li') w' →
  st_name sym ≠ 0 ∧ ∃ name, cstring (iobuffer li') = Some name.
Proof.
  unfold modlib_symname. case_bool_decide as Hname; [intros H; step H|].
  intros H. split; [done|]. by eapply symname_loop_ok.
Qed.

(** A reallocation leaves the session as it was or adds the increment to
    the buffer and to its recorded length. *)
Lemma modlib_reallocbuffer_grows li n w r li' w' :
  0 ≤ n →
  modlib_reallocbuffer li n w = Done (r, li') w' →
  (li' = li
   ∨ (buflen li' = buflen li + n
      ∧ length (iobuffer li') = (length (iobuffer li) + Z.to_nat n)%nat)).
Proof.
  intros Hn. unfold modlib_reallocbuffer. intros H. step H.
  destruct a; step H; [right|by left]. cbn.
  by rewrite length_app, length_replicate.
Qed.

(** The loop keeps the buffer and its recorded length in step. *)
Lemma symname_loop_capacity fuel : ∀ li offset bytesread w r li' w',
  0 ≤ CONFIG_MODLIB_BUFFERINCR cfg →
  Z.of_nat (length (iobuffer li)) = buflen li →
  symname_loop cfg fuel li offset bytesread w = Done (r, li') w' →
  Z.of_nat (length (iobuffer li')) = buflen li'
  ∧ ∃ k : nat, buflen li' = buflen li + Z.of_nat k * CONFIG_MODLIB_BUFFERINCR cfg.
Proof.
  induction fuel as [|fuel IH]; intros li offset bytesread w r li' w' Hincr Hlen H;
    [done|].
  cbn [symname_loop] in H.
  destruct (_ && _); [step H; split; [done|]; exists 0%nat; lia|].
  step H. destruct a as [r0 bs].
  destruct (bool_decide_reflect (r0 < 0));
    [step H; split; [done|]; exists 0%nat; lia|].
  destruct (store_bytes _ _ _) as [buf|] eqn:Hstore; [|step H].
  apply store_bytes_length in Hstore.
  destruct (memchr_nul _ _ _).
  { step H. cbn. split; [by rewrite Hstore|]. exists 0%nat. lia. }
  step H. destruct a as [r1 li1].
  destruct (modlib_reallocbuffer_grows _ _ _ _ _ _ Hincr Hrun0)
    as [->|[Hcap Hbuf]].
  - destruct (bool_decide_reflect (r1 < 0)).
    + step H. cbn. split; [by rewrite Hstore|]. exists 0%nat. lia.
    + apply IH in H as [Hlen' (k & Hk)]; [|done|cbn; by rewrite Hstore].
      split; [done|]. exists k. by rewrite Hk.
  - cbn in Hcap, Hbuf. destruct (bool_decide_reflect (r1 < 0)).
    + step H. split; [lia|]. exists 1%nat. lia.
    + apply IH in H as [Hlen' (k & Hk)]; [|done|lia].
      split; [done|]. exists (S k). lia.
Qed.

(** Whatever the result of modlib_symname, the recorded length of the
    buffer is its length after the call as it was before, and the buffer
    has grown by a whole number of increments: it never shrinks. *)
Theorem symname_capacity li sym sh_offset w r li' w' :
  0 ≤ CONFIG_MODLIB_BUFFERINCR cfg →
  Z.of_nat (length (iobuffer li)) = buflen li →
  modlib_symname cfg li sym sh_offset w = Done (r, li') w' →
  Z.of_nat (length (iobuffer li')) = buflen li'
  ∧ ∃ k : nat, buflen li' = buflen li + Z.of_nat k * CONFIG_MODLIB_BUFFERINCR cfg.
Proof.
  intros Hincr Hlen. unfold modlib_symname. case_bool_decide as Hname.
  - intros H. step H. split; [done|]. exists 0%nat. lia.
  - by apply symname_loop_capacity.
Qed.



(** Whatever its result, modlib_symname changes nothing of the world but
    the scripts of its reads and allocations (the file, the memory, the
    registry, the table of the base code and the dependencies stay), and
    of the session it changes the buffer and its length only. *)
Theorem symname_keeps_store li sym sh_offset w r li' w' :
  modlib_symname cfg li sym sh_offset w = Done (r, li') w' →
  same_store w w' ∧ filelen li' = filelen li ∧ shdr li' = shdr li
  ∧ exported li' = exported li.
Proof. apply modlib_symname_store. Qed.

End NameReaderMore.

(** ** What a resolution touches *)

(** [same_modules] is reflexive. *)
Lemma same_modules_refl w : same_modules w w.
Proof. by repeat split. Qed.

(** [same_modules] is transitive. *)
Lemma same_modules_trans w1 w2 w3 :
  same_modules w1 w2 → same_modules w2 w3 → same_modules w1 w3.
Proof. unfold same_modules. intros ? ?. intuition congruence. Qed.

(** Worlds with the same store have the same modules. *)
Lemma same_store_modules w w' : same_store w w' → same_modules w w'.
Proof. unfold same_store, same_modules. intuition. Qed.

(** modlib_depend fails and leaves the edges, or records one edge from the
    importer to the exporter. *)
Lemma modlib_depend_edges importer exporter w r w' :
  modlib_depend importer exporter w = Done r w' →
  (r < 0 ∧ edges w' = edges w)
  ∨ (r = OK ∧ edges w' = edges w ++ [(modaddr importer, modaddr exporter)]).
Proof.
  unfold modlib_depend. intros H.
  repeat (case_match || case_bool_decide); simplify_eq; auto.
Qed.

(** An entry that is read is at its index in the table. *)
Lemma load_entry_at p i w e w' :
  load_entry p i w = Done e w' →
  ∃ t, mem w !! p = Some (OTab t) ∧ index t i = Some (Some e).
Proof.
  unfold load_entry. intros H. repeat case_match; simplify_eq. eauto.
Qed.

(** An entry found by name holds the string of the key and is one of the
    entries that were searched. *)
Lemma findbyname_from_found symtab name n : ∀ i w e w',
  findbyname_from symtab name i n w = Done (Some e) w' →
  (∃ key, cstring name = Some key ∧ mem w !! sym_name e = Some (OStr key))
  ∧ ∃ t j, mem w !! symtab = Some (OTab t) ∧ i ≤ j < i + Z.of_nat n
      ∧ index t j = Some (Some e).
Proof.
  induction n as [|n IH]; intros i w e w' H; cbn [findbyname_from] in H;
    [step H|].
  step H. pose proof (load_entry_at _ _ _ _ _ Hrun) as (t & Ht & Hi).
  apply load_entry_pure in Hrun as [-> _].
  step H. unfold load_string in Hrun.
  destruct (mem w !! sym_name a) as [[s|]|] eqn:Hs; try done. step Hrun.
  destruct (cstring name) as [key|] eqn:Hkey; [|step H].
  case_bool_decide as Heq.
  - step H. split; [eauto|]. exists t, i.
    repeat split; [done | lia | lia | done].
  - apply IH in H as [Hfound (t' & j & Ht' & Hj & He)]. split; [done|].
    exists t', j. repeat split; [done | lia | lia | done].
Qed.

(** The same for the search of a whole table. *)
Lemma symtab_findbyname_found symtab name nsyms w e w' :
  symtab_findbyname symtab name nsyms w = Done (Some e) w' →
  (∃ key, cstring name = Some key ∧ mem w !! sym_name e = Some (OStr key))
  ∧ entry_of w symtab nsyms e.
Proof.
  unfold symtab_findbyname. case_bool_decide as Hnull; [intros H; step H|].
  intros H.
  apply findbyname_from_found in H as [Hfound (t & j & Ht & Hj & He)].
  split; [done|]. split; [done|]. exists t, j.
  repeat split; [done | lia | lia | done].
Qed.

(** Whether an entry is in a table is a matter of the memory. *)
Lemma entry_of_mem w v p n e :
  mem v = mem w → entry_of w p n e → entry_of v p n e.
Proof. unfold entry_of. by intros ->. Qed.

(** The three ways in which the walk through the registry ends: nothing
    found, a symbol found in a module and the dependency on it recorded,
    or a failure; the edges grow in the second case only. *)
Lemma registry_walk_result name modp mods : ∀ w r ei w1,
  registry_walk modlib_symcallback mods (mkExportinfo name modp None) w
  = Done (r, ei) w1 →
  same_modules w w1 ∧ ei_name ei = name
  ∧ ((r = 0 ∧ ei_symbol ei = None ∧ edges w1 = edges w)
     ∨ (r = SYM_FOUND
        ∧ ∃ m e, m ∈ mods ∧ module_lookup m name w = Done (Some e) w
            ∧ ei_symbol ei = Some e
            ∧ edges w1 = edges w ++ [(modaddr modp, modaddr m)])
     ∨ (r < 0 ∧ edges w1 = edges w)).
Proof.
  induction mods as [|m mods IH]; intros w r ei w1 H; cbn [registry_walk] in H.
  { step H. split; [apply same_modules_refl|]. split; [done|]. by left. }
  step H. destruct a as [r0 ei0]. unfold modlib_symcallback in Hrun.
  cbn in Hrun. step Hrun.
  pose proof Hrun0 as Hlookup.
  apply symtab_findbyname_pure in Hrun0 as [-> _].
  destruct a as [e|].
  - step Hrun. pose proof (modlib_depend_modules _ _ _ _ _ Hrun0) as Hsame.
    apply modlib_depend_edges in Hrun0 as [[Hneg Hedges]|[-> Hedges]].
    + rewrite bool_decide_eq_true_2 in Hrun by done. step Hrun.
      rewrite bool_decide_eq_false_2 in H by lia. step H.
      split; [done|]. split; [done|]. right. by right.
    + rewrite bool_decide_eq_false_2 in Hrun by (unfold OK; lia). step Hrun.
      unfold SYM_FOUND in H. rewrite bool_decide_eq_false_2 in H by lia.
      step H. split; [done|]. split; [done|]. right. left. split; [done|].
      exists m, e. repeat split; try done. apply list_elem_of_here.
  - step Hrun. unfold SYM_NOT_FOUND in H.
    rewrite bool_decide_eq_true_2 in H by done.
    apply IH in H
      as (Hsame & Hname
          & [Hnone|[(-> & m' & e & Hin & Hm' & Hsym & Hedges)|Herr]]);
      (split; [done|]); (split; [done|]); [by left | | by right; right].
    right. left. split; [done|]. exists m', e. repeat split; try done.
    by apply list_elem_of_further.
Qed.

Section ResolverEffects.

Context (cfg : config).

(** The resolution of an undefined symbol, once its name is in the
    buffer. *)
Lemma symvalue_undef_result modp li sym w r li' sym' w' :
  symvalue_undef cfg modp li sym w = Done (r, li', sym') w' →
  li' = li ∧ same_modules w w'
  ∧ (edges w' = edges w
     ∨ (r = OK ∧ ∃ m, m ∈ g_mod_registry w
          ∧ edges w' = edges w ++ [(modaddr modp, modaddr m)]))
  ∧ (r = OK →
     ∃ e key, cstring (iobuffer li) = Some key
       ∧ mem w !! sym_name e = Some (OStr key)
       ∧ sym' = set_st_value (uintptr cfg (st_value sym + sym_value e)) sym
       ∧ ((∃ m, m ∈ g_mod_registry w
             ∧ entry_of w (exports m) (nexports m) e
             ∧ edges w' = edges w ++ [(modaddr modp, modaddr m)])
          ∨ (entry_of w (g_modlib_symtab w) (g_modlib_nsymbols w) e
             ∧ edges w' = edges w))).
Proof.
  unfold symvalue_undef, modlib_registry_foreach. intros H.
  step H. destruct a as [r0 ei]. step Hrun. unfold get_world in Hrun0.
  step Hrun0.
  apply registry_walk_result in Hrun as (Hsame & Hname & Hcases).
  cbn in Hname.
  destruct (bool_decide_reflect (r0 < 0)) as [Hneg|Hpos].
  { step H. repeat split; try apply Hsame.
    - left. destruct Hcases as [(_ & _ & He)|[(-> & _)|(_ & He)]];
        [done | unfold SYM_FOUND in Hneg; lia | done].
    - unfold OK. lia. }
  step H.
  destruct Hcases as [(-> & Hsym & He)|[(-> & m & e & Hin & Hm & Hsym & He)|(Hneg & _)]];
    [| |lia]; rewrite Hsym in Hrun.
  - unfold modlib_getsymtab, get_world in Hrun.
    step Hrun. step Hrun0. step Hrun0.
    pose proof Hrun as Hfound.
    apply symtab_findbyname_pure in Hrun as [-> _].
    destruct a as [e|]; step H; repeat split; try apply Hsame; auto;
      [|unfold OK, ENOENT; lia].
    intros _.
    apply symtab_findbyname_found in Hfound as ((key & Hkey & Hmem) & Hentry).
    exists e, key. destruct Hsame as (Hmem' & _ & Htab & Hn).
    rewrite Hname in Hkey. rewrite Htab, Hn in Hentry.
    repeat split; [done | by rewrite <- Hmem' |].
    right. split; [|done]. by apply (entry_of_mem w').
  - step Hrun. step H. repeat split; try apply Hsame.
    + right. split; [done|]. eauto.
    + intros _.
      apply symtab_findbyname_found in Hm as ((key & Hkey & Hmem) & Hentry).
      exists e, key. repeat split; [done | done |]. left. eauto.
Qed.

(** Whatever its result, modlib_symvalue leaves the memory, the registry
    and the table of the base code as they were.  It records at most one
    dependency, from the module being resolved to a module of the
    registry, and none when it fails. *)
Theorem symvalue_edges modp li sym sh_offset w r li' sym' w' :
  modlib_symvalue cfg modp li sym sh_offset w = Done (r, li', sym') w' →
  same_modules w w'
  ∧ (r ≠ OK → edges w' = edges w)
  ∧ (edges w' = edges w
     ∨ ∃ m, m ∈ g_mod_registry w
         ∧ edges w' = edges w ++ [(modaddr modp, modaddr m)]).
Proof.
  unfold modlib_symvalue. intros H.
  assert (same_modules w w ∧ (r ≠ OK → edges w = edges w)
          ∧ (edges w = edges w
             ∨ ∃ m, m ∈ g_mod_registry w
                 ∧ edges w = edges w ++ [(modaddr modp, modaddr m)]))
    as Hnothing.
  { split; [apply same_modules_refl | split; [done | by left]]. }
  case_bool_decide; [by step H|].
  case_bool_decide; [by step H|].
  case_bool_decide.
  - step H. destruct a as [r0 li0].
    apply modlib_symname_store in Hrun as (Hstore & _).
    pose proof (same_store_modules _ _ Hstore) as Hsame.
    destruct Hstore as (_ & _ & _ & Hreg & _ & _ & Hedges & _).
    destruct (bool_decide_reflect (r0 < 0));
      [step H; split; [done | split; [done | by left]]|].
    apply symvalue_undef_result in H as (_ & Hsame' & Hcases & _).
    rewrite Hreg, Hedges in Hcases.
    split; [by eapply same_modules_trans|]. split.
    + intros Hr. by destruct Hcases as [|[? _]].
    + destruct Hcases as [|[_ ?]]; auto.
  - by destruct (index _ _); step H.
Qed.

(** A successful resolution of an undefined symbol comes from an export
    entry.  There is an entry whose name, in memory, is the string that the
    call leaves in the buffer, and the new value of the symbol is its old
    value plus the value of that entry, at the width of a pointer.  The
    entry is one of the entries of the export table of a module of the
    registry, and the dependency on that module is the one edge that the
    call records; or it is one of the entries of the table of the base
    code, and the call records no edge. *)
Theorem symvalue_resolved_from_export modp li sym sh_offset w li' sym' w' :
  st_shndx sym = SHN_UNDEF →
  modlib_symvalue cfg modp li sym sh_offset w = Done (OK, li', sym') w' →
  ∃ e key, cstring (iobuffer li') = Some key
    ∧ mem w !! sym_name e = Some (OStr key)
    ∧ sym' = set_st_value (uintptr cfg (st_value sym + sym_value e)) sym
    ∧ ((∃ m, m ∈ g_mod_registry w
          ∧ entry_of w (exports m) (nexports m) e
          ∧ edges w' = edges w ++ [(modaddr modp, modaddr m)])
       ∨ (entry_of w (g_modlib_symtab w) (g_modlib_nsymbols w) e
          ∧ edges w' = edges w)).
Proof.
  intros Hund H. unfold modlib_symvalue in H. rewrite Hund in H.
  rewrite (bool_decide_eq_false_2 (SHN_UNDEF = SHN_COMMON)),
    (bool_decide_eq_false_2 (SHN_UNDEF = SHN_ABS)),
    (bool_decide_eq_true_2 (SHN_UNDEF = SHN_UNDEF)) in H by done.
  step H. destruct a as [r0 li0].
  apply modlib_symname_store in Hrun
    as ((_ & Hmem & _ & Hreg & Htab & Hn & Hedges & _) & _).
  destruct (bool_decide_reflect (r0 < 0)); [step H; unfold OK in *; lia|].
  apply symvalue_undef_result in H as (-> & _ & _ & Hok).
  destruct (Hok eq_refl) as (e & key & Hkey & He & Hsym & Hfrom).
  exists e, key. rewrite Hmem in He. repeat split; [done | done | done |].
  rewrite Hreg, Htab, Hn, Hedges in Hfrom.
  destruct Hfrom as [(m & Hin & Hentry & Hedge)|[Hentry Hedge]].
  - left. exists m. split; [done|]. split; [|done].
    by apply (entry_of_mem w0).
  - right. split; [|done]. by apply (entry_of_mem w0).
Qed.

End ResolverEffects.

(** ** Teardown of a table *)

(** An entry without a name frees no name. *)
Lemma live_names_null e rest :
  sym_name e = NULL → live_names (e :: rest) = live_names rest.
Proof.
  intros Hnull. unfold live_names. rewrite fmap_cons.
  by rewrite filter_cons_False by (intros Hne; by apply Hne).
Qed.

(** An entry with a name frees that name first. *)
Lemma live_names_cons e rest :
  sym_name e ≠ NULL → live_names (e :: rest) = sym_name e :: live_names rest.
Proof.
  intros Hname. unfold live_names. rewrite fmap_cons.
  by rewrite filter_cons_True.
Qed.

(** The second of two writes of the memory is the one that stays. *)
Lemma set_mem_set_mem m1 m2 w : set_mem m2 (set_mem m1 w) = set_mem m2 w.
Proof. done. Qed.

(** Writing back the memory of a world changes nothing. *)
Lemma set_mem_id w : set_mem (mem w) w = w.
Proof. by destruct w. Qed.

(** After freeing, the freed addresses are empty and the others are as
    before. *)
Lemma freed_lookup l : ∀ m a,
  freed l m !! a = if bool_decide (a ∈ l) then None else m !! a.
Proof.
  induction l as [|b l IH]; intros m a; [done|].
  cbn [freed foldl]. fold (freed l (delete b m)). rewrite IH.
  destruct (decide (a ∈ l)) as [Hin|Hout].
  - rewrite !bool_decide_eq_true_2; [done | by right | done].
  - rewrite (bool_decide_eq_false_2 (a ∈ l)) by done.
    destruct (decide (a = b)) as [->|Hne].
    + rewrite bool_decide_eq_true_2 by left. apply lookup_delete_eq.
    + rewrite bool_decide_eq_false_2; [by rewrite lookup_delete_ne|].
      intros Hin. by apply elem_of_cons in Hin as [?|?].
Qed.

(** Freeing an allocated object removes it. *)
Lemma lib_free_live p w o :
  p ≠ NULL → mem w !! p = Some o →
  lib_free p w = Done tt (set_mem (delete p (mem w)) w).
Proof.
  intros Hp Hlive. unfold lib_free.
  rewrite bool_decide_eq_false_2 by done. by rewrite Hlive.
Qed.

(** The loop of modlib_freesymtab frees the names of the entries from [i]
    on. *)
Lemma free_names_frees p t rest : ∀ (i : nat) w,
  mem w !! p = Some (OTab (Some <$> t)) →
  drop i t = rest →
  NoDup (live_names rest) → p ∉ live_names rest →
  (∀ a, a ∈ live_names rest → is_Some (mem w !! a)) →
  free_names p (Z.of_nat i) (length rest) w
  = Done tt (set_mem (freed (live_names rest) (mem w)) w).
Proof.
  induction rest as [|e rest IH]; intros i w Htab Hdrop Hdup Hp Hlive.
  { cbn. by rewrite set_mem_id. }
  cbn [length free_names]. unfold bind at 1, load_entry. rewrite Htab.
  unfold index. rewrite bool_decide_eq_true_2 by lia. rewrite Nat2Z.id.
  assert (t !! i = Some e) as Hi.
  { assert (drop i t !! 0%nat = Some e) as H0 by (by rewrite Hdrop).
    by rewrite lookup_drop, Nat.add_0_r in H0. }
  rewrite list_lookup_fmap, Hi. cbn -[live_names freed free_names].
  assert (drop (S i) t = rest) as Hdrop'.
  { by rewrite <- Nat.add_1_r, <- drop_drop, Hdrop. }
  replace (Z.of_nat i + 1) with (Z.of_nat (S i)) by lia.
  destruct (decide (sym_name e = NULL)) as [Hnull|Hname].
  - rewrite live_names_null in Hdup, Hp, Hlive |- * by done.
    unfold bind, lib_free. rewrite bool_decide_eq_true_2 by done. cbn.
    by apply IH.
  - rewrite live_names_cons in Hdup, Hp, Hlive |- * by done.
    apply NoDup_cons in Hdup as [Hfresh Hdup].
    destruct (Hlive (sym_name e)) as [o Ho]; [left|].
    unfold bind. rewrite (lib_free_live _ _ o) by done.
    rewrite IH; try done.
    + cbn. rewrite lookup_delete_ne; [done|]. intros <-. apply Hp. left.
    + intros Hin. apply Hp. by right.
    + intros a Ha. cbn. rewrite lookup_delete_ne; [apply Hlive; by right|].
      by intros <-.
Qed.

(** modlib_freesymtab on a module with a table of entries [t], the table
    and the names being allocated objects at distinct addresses: the call
    returns, it frees the table and the names that are not NULL, and every
    other address of the memory keeps what it had.  Nothing but the
    memory changes. *)
Theorem freesymtab_frees m w t :
  exports m ≠ NULL →
  mem w !! exports m = Some (OTab (Some <$> t)) →
  nexports m = Z.of_nat (length t) →
  NoDup (exports m :: live_names t) →
  (∀ a, a ∈ live_names t → is_Some (mem w !! a)) →
  ∃ w',
    modlib_freesymtab m w = Done tt w'
    ∧ w' = set_mem (mem w') w
    ∧ ∀ a, mem w' !! a
           = if bool_decide (a ∈ exports m :: live_names t) then None
             else mem w !! a.
Proof.
  intros Hp Htab Hn Hdup Hlive. apply NoDup_cons in Hdup as [Hfresh Hdup].
  unfold modlib_freesymtab. rewrite bool_decide_eq_true_2 by done.
  unfold bind. rewrite Hn, Nat2Z.id.
  change 0 with (Z.of_nat 0).
  rewrite (free_names_frees _ t t) by done.
  rewrite (lib_free_live _ _ (OTab (Some <$> t))); [|done|].
  2:{ cbn. rewrite freed_lookup. by rewrite bool_decide_eq_false_2. }
  eexists. split; [done|]. split; [done|]. intros a. cbn.
  destruct (decide (a = exports m)) as [->|Hne].
  - rewrite bool_decide_eq_true_2 by left. apply lookup_delete_eq.
  - rewrite lookup_delete_ne by done. rewrite freed_lookup.
    destruct (decide (a ∈ live_names t)) as [Hin|Hout].
    + rewrite !bool_decide_eq_true_2; [done | by right | done].
    + rewrite !bool_decide_eq_false_2; [done | | done].
      intros Hin. by apply elem_of_cons in Hin as [?|?].
Qed.

(** ** Failure of the table builder *)

Section BuilderFailure.

Context (cfg : config).

(** The loop that fills the table fails only through its error path, which
    clears the exports pointer. *)
Lemma build_exports_error sym shdr0 symbol n : ∀ modp li r0 i j w r modp' li' w',
  ¬ r0 < 0 →
  build_exports cfg modp li shdr0 sym symbol r0 i j n w = Done (r, modp', li') w' →
  r < 0 → exports modp' = NULL.
Proof.
  induction n as [|n IH]; intros modp li r0 i j w r modp' li' w' Hr0 H Hr;
    cbn [build_exports] in H.
  { step H. lia. }
  destruct (index sym i) as [s|]; [|step H].
  case_bool_decide as Hnamed; [|by eapply IH].
  destruct (index (shdr li) (sh_link shdr0)) as [strTab|]; [|step H].
  step H. destruct a as [r1 li1].
  destruct (bool_decide_reflect (r1 < 0)) as [Hneg|Hpos].
  - step H. by step H.
  - step H. step H. by eapply IH.
Qed.

(** When modlib_insertsymtab fails, by a failed allocation of the table or
    by a name that cannot be read, the module is left with a NULL exports
    pointer. *)
Theorem insertsymtab_error_detaches modp li shdr0 sym w r modp' li' w' :
  modlib_insertsymtab cfg modp li shdr0 sym w = Done (r, modp', li') w' →
  r < 0 → exports modp' = NULL.
Proof.
  unfold modlib_insertsymtab. intros H Hr. step H. step H.
  case_bool_decide as Hcount; [|step H; lia].
  step H. case_bool_decide as Hnull.
  - eapply build_exports_error in H; [done | lia | done].
  - by step H.
Qed.

End BuilderFailure.

(** ** The table that the builder publishes *)







Section Builder.

Context (cfg : config).






End Builder.

(** ** Resolution as a lookup in tables *)




Section ResolverTables.

Context (cfg : config).


End ResolverTables.

(** ** From publishing to resolving *)

Section PublishResolve.

Context (cfg : config).



End PublishResolve.

(** ** The table of global entry points *)










(** An index that is read is inside the list. *)
Lemma index_Some_lt {A} (l : list A) i x :
  index l i = Some x → 0 ≤ i < Z.of_nat (length l).
Proof.
  unfold index. case_bool_decide as Hi; [|done]. intros H.
  apply lookup_lt_Some in H. lia.
Qed.







Section GlobalTable.

Context (cfg : config).


End GlobalTable.

(** ** The further properties on the concrete sessions *)


(** The call on that file returns. *)
Lemma modlib_symname_returns_witness :
  modlib_symname (elf32 32) li_cut (undefined 1 0) 0 w_cut ≠ Timeout.
Proof.
  apply (modlib_symname_returns (elf32 32) li_cut (undefined 1 0) 0 w_cut).
  simpl. lia.
Defined.

(** The name "foo" read into a fresh session. *)
Lemma symname_ok_terminated_witness :
  st_name (undefined 1 4) ≠ 0
  ∧ ∃ name, cstring (iobuffer (set_iobuffer (buffer_at 1) li_fresh)) = Some name.
Proof.
  apply (symname_ok_terminated (elf32 32) li_fresh (undefined 1 4) 0 w_loaded
           (set_iobuffer (buffer_at 1) li_fresh) w_loaded).
  vm_compute. reflexivity.
Defined.

(** The session after the name of 72 bytes was read. *)
Lemma symname_capacity_witness :
  Z.of_nat (length (iobuffer li_long_read)) = buflen li_long_read
  ∧ ∃ k : nat, buflen li_long_read = buflen li_long + Z.of_nat k * 32.
Proof.
  apply (symname_capacity (elf32 32) li_long (undefined 1 0) 0 w_long OK
           li_long_read w_long).
  - simpl. lia.
  - reflexivity.
  - vm_compute. reflexivity.
Defined.


(** The read of the long name leaves the world as it was. *)
Lemma symname_keeps_store_witness :
  same_store w_long w_long
  ∧ filelen li_long_read = filelen li_long
  ∧ shdr li_long_read = shdr li_long
  ∧ exported li_long_read = exported li_long.
Proof.
  apply (symname_keeps_store (elf32 32) li_long (undefined 1 0) 0 w_long OK
           li_long_read w_long).
  vm_compute. reflexivity.
Defined.

(** The symbol table of the object file is its section 1, and its string
    table is section 2. *)
Lemma findsymtab_first_witness :
  modlib_findsymtab li_object loc_object w_object
  = Done (OK, mkLocation 3 1 2) w_object.
Proof.
  apply (findsymtab_first li_object loc_object w_object 1 symtab_hdr).
  - simpl. lia.
  - reflexivity.
  - reflexivity.
  - intros k Hk. lia.
Defined.

(** The OK for the object file and what it stands for. *)
Lemma findsymtab_sound_witness :
  ∃ sec, 1 ≤ symtabidx (mkLocation 3 1 2) < e_shnum loc_object
    ∧ index (shdr li_object) (symtabidx (mkLocation 3 1 2)) = Some sec
    ∧ sh_type sec = SHT_SYMTAB
    ∧ strtabidx (mkLocation 3 1 2) = sh_link sec
    ∧ (∀ k, 1 ≤ k < symtabidx (mkLocation 3 1 2) →
            ∃ s, index (shdr li_object) k = Some s ∧ sh_type s ≠ SHT_SYMTAB).
Proof.
  apply (findsymtab_sound li_object loc_object w_object OK (mkLocation 3 1 2)
           w_object); reflexivity.
Defined.

(** The sections of the loaded session have no symbol table. *)
Lemma findsymtab_none_witness :
  modlib_findsymtab li_fresh (mkLocation 2 0 0) w_loaded
  = Done (- EINVAL, mkLocation 2 0 0) w_loaded.
Proof.
  apply (findsymtab_none li_fresh (mkLocation 2 0 0) w_loaded).
  intros k Hk. assert (k = 1) as -> by (simpl in Hk; lia).
  eexists. split; [reflexivity|]. discriminate.
Defined.


(** Two sessions whose buffers differ behind the terminator, in worlds
    that differ in their edges. *)
Lemma resolution_depends_on_name_witness :
  set_st_value 0x2004 (undefined 1 4) = set_st_value 0x2004 (undefined 1 4).
Proof.
  apply (resolution_depends_on_name (elf32 32) modC
           (set_iobuffer (buffer_at 1) li_fresh)
           (set_iobuffer (bytes "foo" ++ zeros 1) li_fresh)
           (undefined 1 4) w_loaded (set_edges [(9, 9)] w_loaded)
           (set_iobuffer (buffer_at 1) li_fresh)
           (set_st_value 0x2004 (undefined 1 4))
           (set_edges [(3, 2)] w_loaded)
           (set_iobuffer (bytes "foo" ++ zeros 1) li_fresh)
           (set_st_value 0x2004 (undefined 1 4))
           (set_edges [(9, 9); (3, 2)] w_loaded)).
  - reflexivity.
  - by repeat split.
  - vm_compute. reflexivity.
  - vm_compute. reflexivity.
Defined.

(** The resolution of "foo" in the loaded session records the dependency
    of [modC] on [modB]. *)
Lemma symvalue_edges_witness :
  same_modules w_loaded (set_edges [(3, 2)] w_loaded)
  ∧ (OK ≠ OK → edges (set_edges [(3, 2)] w_loaded) = edges w_loaded)
  ∧ (edges (set_edges [(3, 2)] w_loaded) = edges w_loaded
     ∨ ∃ m, m ∈ g_mod_registry w_loaded
         ∧ edges (set_edges [(3, 2)] w_loaded)
           = edges w_loaded ++ [(modaddr modC, modaddr m)]).
Proof.
  apply (symvalue_edges (elf32 32) modC li_fresh (undefined 1 4) 0 w_loaded OK
           (set_iobuffer (buffer_at 1) li_fresh)
           (set_st_value 0x2004 (undefined 1 4))).
  vm_compute. reflexivity.
Defined.

(** The resolution of "bar" from the table of the base code. *)
Lemma symvalue_resolved_from_export_witness :
  ∃ e key,
    cstring (iobuffer (set_iobuffer (buffer_at 5) li_fresh)) = Some key
    ∧ mem w_loaded !! sym_name e = Some (OStr key)
    ∧ set_st_value 0x3004 (undefined 5 4)
      = set_st_value (uintptr (elf32 32) (st_value (undefined 5 4) + sym_value e))
          (undefined 5 4)
    ∧ ((∃ m, m ∈ g_mod_registry w_loaded
          ∧ entry_of w_loaded (exports m) (nexports m) e
          ∧ edges w_loaded = edges w_loaded ++ [(modaddr modC, modaddr m)])
       ∨ (entry_of w_loaded (g_modlib_symtab w_loaded)
            (g_modlib_nsymbols w_loaded) e
          ∧ edges w_loaded = edges w_loaded)).
Proof.
  apply (symvalue_resolved_from_export (elf32 32) modC li_fresh (undefined 5 4)
           0 w_loaded (set_iobuffer (buffer_at 5) li_fresh)
           (set_st_value 0x3004 (undefined 5 4)) w_loaded).
  - reflexivity.
  - vm_compute. reflexivity.
Defined.



(** Teardown of [modA] in the loaded session. *)
Lemma freesymtab_frees_witness :
  ∃ w',
    modlib_freesymtab modA w_loaded = Done tt w'
    ∧ w' = set_mem (mem w') w_loaded
    ∧ ∀ a, mem w' !! a
           = if bool_decide (a ∈ exports modA :: live_names [mkSymtab 10 0x1000])
             then None else mem w_loaded !! a.
Proof.
  apply (freesymtab_frees modA w_loaded [mkSymtab 10 0x1000]).
  - discriminate.
  - reflexivity.
  - reflexivity.
  - change (NoDup [11; 10]). apply NoDup_cons_2; [|apply NoDup_singleton].
    intros Hin. by apply list_elem_of_singleton in Hin.
  - intros a Ha. change (a ∈ [10]) in Ha.
    apply list_elem_of_singleton in Ha as ->. by eexists.
Defined.

(** The name of the last symbol lies outside the file. *)
Lemma insertsymtab_error_detaches_witness :
  ∃ modp' li' w',
    modlib_insertsymtab (elf32 32) modC li_fresh three_syms broken_syms w_fresh
    = Done (- EINVAL, modp', li') w'
    ∧ exports modp' = NULL.
Proof.
  eexists _, _, _. split; [vm_compute; reflexivity|].
  eapply (insertsymtab_error_detaches (elf32 32) modC li_fresh three_syms
            broken_syms w_fresh (- EINVAL)).
  - vm_compute. reflexivity.
  - unfold EINVAL. lia.
Defined.





